(** * Conway's Game of Life on a clipped terminal grid (bin/conway.py)

    A shallow embedding of the core of [bin/conway.py]: the neighbour
    enumerator, the clipping policy [die], the generation advance
    [next_board], the random board generator [random_board] and the
    [BoredomDetector] class, followed by the properties of the specification
    that concern them.

    Python integers are unbounded, so coordinates, states and counters are
    [Z].  A board is a Python dict from points to states: a [gmap (Z * Z) Z].
    The module-level random generator is an explicit stream of raw outcomes
    threaded through the code that draws from it; exceptions are an explicit
    outcome of that monad. *)

From stdpp Require Import gmap list fin_maps strings.
From Stdlib Require Import ZArith Lia ZifyBool.

Local Open Scope Z_scope.

(** ** Data model *)

(** A point is a pair [(x, y)] of integers; a board maps each live point to
    its state, "an int from 0..2 representing a color". *)
Abbreviation cell := (Z * Z)%type.
Abbreviation board := (gmap (Z * Z) Z).

(** The specification's names for the three state values the code writes. *)
Definition Survived : Z := 0.
Definition Born : Z := 1.
Definition Stable : Z := 2.

(** [point in board]. *)
Definition live (b : board) (point : cell) : bool :=
  bool_decide (is_Some (b !! point)).

(** ** neighbors *)

(** The generator [neighbors((x, y))], in the order of its [yield]s. *)
Definition neighbors (p : cell) : list cell :=
  let '(x, y) := p in
  [ (x + 1, y); (x - 1, y); (x, y + 1); (x, y - 1);
    (x + 1, y + 1); (x + 1, y - 1); (x - 1, y + 1); (x - 1, y - 1) ].

(** ** die *)

(** [die], the closure of [main] over [width] and [height]: the point itself
    when it is on the screen, Python's [None] (falling off the end of the
    function) otherwise. *)
Definition die (width height : Z) (p : cell) : option cell :=
  let '(x, y) := p in
  if (0 <=? x) && (x <? width) && (0 <=? y) && (y <? height)
  then Some (x, y)
  else None.

(** ** next_board *)

(** [neigh in board] for a value [neigh] returned by [wrap]: [None] is never
    a key of a board. *)
Definition in_board (b : board) (neigh : option cell) : bool :=
  match neigh with
  | Some q => live b q
  | None => false
  end.

(** [sum((neigh in board) for neigh in (wrap(n) for n in neighbors(point) if n))].
    The filter [if n] tests a two-element tuple, which is always true in
    Python, so every neighbour is passed to [wrap]. *)
Definition count_of (b : board) (wrap : cell → option cell) (point : cell) : Z :=
  foldr (λ neigh acc, Z.b2z (in_board b neigh) + acc) 0
        (wrap <$> neighbors point).

(** The [if count == 3 / elif count == 2 and point in board / else] chain;
    [None] is Python's [state = None]. *)
Definition new_state (count : Z) (alive : bool) : option Z :=
  if count =? 3 then Some (if alive then 0 else 1)
  else if (count =? 2) && alive then Some 2
  else None.

(** One iteration of the [for point in points_to_recalc] loop, acting on
    [new_board].  [if wrapped:] tests the result of [wrap]: a point is a
    non-empty tuple, hence true; [None] is false. *)
Definition recalc (b : board) (wrap : cell → option cell)
    (new_board : board) (point : cell) : board :=
  match new_state (count_of b wrap point) (live b point) with
  | Some state =>
      match wrap point with
      | Some wrapped => <[wrapped := state]> new_board
      | None => new_board
      end
  | None => new_board
  end.

(** The union of [set(board.iterkeys())] with the set of all the points that
    [neighbors] yields for the keys of [board] (the [chain] over [map]). *)
Definition points_to_recalc (b : board) : gset cell :=
  dom b ∪ list_to_set (mjoin (neighbors <$> elements (dom b))).

(** The loop of [next_board] run over the points [pts] in the order given,
    starting from [new_board = {}]. *)
Definition next_board_over (pts : list cell) (b : board)
    (wrap : cell → option cell) : board :=
  foldl (recalc b wrap) ∅ pts.

(** [next_board(board, wrap)].  A Python set is iterated in an order the
    language does not fix; [elements] is one such order, and
    [next_board_over] is the loop for any other. *)
Definition next_board (b : board) (wrap : cell → option cell) : board :=
  next_board_over (elements (points_to_recalc b)) b wrap.

(** [n] successive generations under the same policy. *)
Definition generations (n : nat) (wrap : cell → option cell) (b : board) : board :=
  Nat.iter n (λ b', next_board b' wrap) b.

(** ** The random source and exceptions *)

(** The state of Python's module-level generator: the raw outcomes still to
    come.  Every function [nat → Z] is a possible run of the generator. *)
Definition source : Type := nat → Z.

(** The exceptions the modelled code can raise. *)
Inductive exn : Type :=
  | ZeroDivisionError
  | ValueError.

Inductive outcome (A : Type) : Type :=
  | Returns (a : A) (rest : source)
  | Raises (e : exn).
Arguments Returns {A} a rest.
Arguments Raises {A} e.

(** Code that draws from the generator and may raise. *)
Definition M (A : Type) : Type := source → outcome A.

(** The value a computation returned, if it returned. *)
Definition returned {A : Type} (o : outcome A) : option A :=
  match o with
  | Returns a _ => Some a
  | Raises _ => None
  end.

#[global] Instance M_ret : MRet M := λ A a src, Returns a src.
#[global] Instance M_bind : MBind M := λ A B k m src,
  match m src with
  | Returns a rest => k a rest
  | Raises e => Raises e
  end.

Definition raise {A : Type} (e : exn) : M A := λ _, Raises e.

(** [random.randint(a, b)]: an integer [N] with [a <= N <= b], both ends
    included; [ValueError] on an empty range.  The next raw outcome is
    reduced into the range, so that every outcome of the source gives a
    value of the range and every value of the range is given by some
    outcome. *)
Definition randint (a b : Z) : M Z := λ src,
  if a <=? b
  then Returns (a + src 0%nat `mod` (b - a + 1)) (λ i, src (S i))
  else Raises ValueError.

(** ** random_board *)

(** [dict(items)]: the items are stored one after the other, a later item
    replacing an earlier one with the same key. *)
Definition dict (items : list (cell * Z)) : board :=
  foldl (λ d kv, <[kv.1 := kv.2]> d) ∅ items.

(** The generator expression
    [((randint(0, max_x), randint(0, max_y)), 0) for _ in xrange(n)],
    consumed in full: [x] is drawn before [y]. *)
Fixpoint items_of (n : nat) (max_x max_y : Z) : M (list (cell * Z)) :=
  match n with
  | O => mret []
  | S n' =>
      x ← randint 0 max_x;
      y ← randint 0 max_y;
      rest ← items_of n' max_x max_y;
      mret (((x, y), 0) :: rest)
  end.

(** [random_board(max_x, max_y, load_factor)] on integers.  [/] is Python 2's
    floor division and raises on a zero divisor; [xrange] of a negative
    number is empty ([Z.to_nat]).  The platform's limit on the argument of
    [xrange] is not modelled. *)
Definition random_board (max_x max_y load_factor : Z) : M board :=
  if load_factor =? 0 then raise ZeroDivisionError
  else
    items ← items_of (Z.to_nat (max_x * max_y / load_factor)) max_x max_y;
    mret (dict items).

(** ** BoredomDetector *)

(** The attributes of a [BoredomDetector] object. *)
Record BoredomDetector : Type := mkDetector {
  iteration : Z;
  num : Z;
  times : Z
}.

Definition REPETITIONS : Z := 14.
Definition PATTERN_LENGTH : Z := 4.

(** [BoredomDetector()], the state that [__init__] leaves. *)
Definition BoredomDetector_init : BoredomDetector :=
  {| iteration := REPETITIONS * PATTERN_LENGTH + 1; num := 0; times := 0 |}.

(** [len(board)]. *)
Definition len (b : board) : Z := Z.of_nat (size b).

(** [self.is_bored_of(board)]: the returned [is_bored], a flag that records
    whether the body of the [if] (the reset) was executed, and the object's
    attributes after the call. *)
Definition is_bored_of_traced (self : BoredomDetector) (b : board)
    : M (bool * bool * BoredomDetector) :=
  let iteration' := iteration self + 1 in
  let times' := if len b =? num self then times self + 1 else times self in
  let is_bored := REPETITIONS <? times' in
  if (REPETITIONS * PATTERN_LENGTH <? iteration') || is_bored then
    jitter ← randint (-2) 0;
    mret (is_bored, true, {| iteration := jitter; num := len b; times := 0 |})
  else
    mret (is_bored, false,
          {| iteration := iteration'; num := num self; times := times' |}).

(** [self.is_bored_of(board)] as the caller sees it. *)
Definition is_bored_of (self : BoredomDetector) (b : board)
    : M (bool * BoredomDetector) :=
  r ← is_bored_of_traced self b;
  mret (r.1.1, r.2).

(** What one call of [is_bored_of] in a run did. *)
Record call : Type := mkCall {
  c_before : BoredomDetector;
  c_population : Z;
  c_bored : bool;
  c_reset : bool;
  c_after : BoredomDetector
}.

(** [is_bored_of] called on each board of a list in turn, on one detector. *)
Fixpoint run (self : BoredomDetector) (boards : list board) : M (list call) :=
  match boards with
  | [] => mret []
  | b :: boards' =>
      r ← is_bored_of_traced self b;
      rest ← run r.2 boards';
      mret (mkCall self (len b) r.1.1 r.1.2 r.2 :: rest)
  end.

(** The calls of a trace that saw the population [p]. *)
Definition seeing (p : Z) (tr : list call) : list call :=
  filter (λ c, c_population c = p) tr.

(** ** draw *)

(** [cells[state]], the subscript that [draw] evaluates: Python counts a
    negative index from the end of the sequence, and raises [IndexError]
    ([None]) outside of it. *)
Definition subscript {A : Type} (cells : list A) (state : Z) : option A :=
  if 0 <=? state then cells !! Z.to_nat state
  else if 0 <=? Z.of_nat (length cells) + state
       then cells !! Z.to_nat (Z.of_nat (length cells) + state)
       else None.

(** The boards that the core hands to [draw]: what [random_board] returns
    and what the loop of [next_board] assembles, in whatever order it visits
    its points. *)
Inductive emitted : board → Prop :=
  | emitted_random max_x max_y load_factor src b :
      returned (random_board max_x max_y load_factor src) = Some b →
      emitted b
  | emitted_next pts b wrap :
      emitted (next_board_over pts b wrap).

(** ** Fixtures *)

(** The board [b] moved by [(dx, dy)]. *)
Definition translate (dx dy : Z) (b : board) : board :=
  kmap (λ p : cell, (p.1 + dx, p.2 + dy)) b.

(** The policy that keeps every point: an unbounded grid. *)
Definition unclipped (p : cell) : option cell := Some p.

(** The five-cell glider heading towards increasing [x] and [y]. *)
Definition glider : board :=
  dict [((1, 0), 0); ((2, 1), 0); ((0, 2), 0); ((1, 2), 0); ((2, 2), 0)].

(** A board of [n] points in a row. *)
Definition row (n : nat) : board :=
  dict ((λ i : nat, ((Z.of_nat i, 0), 0)) <$> seq 0 n).

(** [n] boards of populations [1, 2, ..., n]. *)
Definition growing (n : nat) : list board := row <$> seq 1 n.

(** A source whose every raw outcome is [r]. *)
Definition constant_source (r : Z) : source := λ _, r.

(** Three cells in a column, away from the left edge and on it. *)
Definition blinker : board :=
  dict [((1, 0), 0); ((1, 1), 0); ((1, 2), 0)].
Definition edge_column : board :=
  dict [((0, 0), 0); ((0, 1), 0); ((0, 2), 0)].

(** ** Notions used in the proofs *)

(** The sum of a list of truth values, as [count_of] forms it. *)
Definition tally {A : Type} (f : A → bool) (l : list A) : Z :=
  foldr (λ a acc, Z.b2z (f a) + acc) 0 l.

(** What the loop decides for the point [p] when [wrap] keeps it. *)
Definition verdict (wrap : cell → option cell) (b : board) (p : cell) : option Z :=
  match wrap p with
  | Some _ => new_state (count_of b wrap p) (live b p)
  | None => None
  end.

(** All the live cells of [b] are on a screen of [W] columns and [H] rows. *)
Definition within (W H : Z) (b : board) : Prop :=
  ∀ p, p ∈ dom b → 0 ≤ p.1 < W ∧ 0 ≤ p.2 < H.

Definition withinb (W H : Z) (b : board) : bool :=
  forallb (λ p : cell, (0 <=? p.1) && (p.1 <? W) && (0 <=? p.2) && (p.2 <? H))
          (elements (dom b)).

(** An item of [random_board]: a point of the rectangle, with state 0. *)
Definition item_ok (max_x max_y : Z) (kv : cell * Z) : Prop :=
  (0 ≤ kv.1.1 ≤ max_x ∧ 0 ≤ kv.1.2 ≤ max_y) ∧ kv.2 = 0.

(** The relation between the fields of a call record that one execution of
    [is_bored_of] establishes. *)
Definition stepped (c : call) : Prop :=
  let self := c_before c in
  let times' :=
    if c_population c =? num self then times self + 1 else times self in
  c_bored c = (REPETITIONS <? times') ∧
  c_reset c = ((REPETITIONS * PATTERN_LENGTH <? iteration self + 1) || c_bored c) ∧
  if c_reset c
  then -2 ≤ iteration (c_after c) ≤ 0 ∧
       num (c_after c) = c_population c ∧ times (c_after c) = 0
  else iteration (c_after c) = iteration self + 1 ∧
       num (c_after c) = num self ∧ times (c_after c) = times'.

(** [tr] is a sequence of calls on one detector that starts in [self]. *)
Fixpoint trace_from (self : BoredomDetector) (tr : list call) : Prop :=
  match tr with
  | [] => True
  | c :: tr' => c_before c = self ∧ stepped c ∧ trace_from (c_after c) tr'
  end.

(** The detector after the calls of [tr]. *)
Definition final (self : BoredomDetector) (tr : list call) : BoredomDetector :=
  foldl (λ _ c, c_after c) self tr.

(** Each number of the list is less than the next one. *)
Fixpoint increasing (l : list Z) : bool :=
  match l with
  | a :: (b :: _) as rest => (a <? b) && increasing rest
  | _ => true
  end.

(** The calls [pre] end with a reset [r] followed by calls [since] that did
    not reset, and the detector [st] still holds the population recorded by
    [r] and has counted the calls of [since] that saw it again. *)
Definition since_reset (pre : list call) (st : BoredomDetector) : Prop :=
  ∃ pre' r since,
    pre = pre' ++ r :: since ∧ c_reset r = true ∧
    Forall (λ e, c_reset e = false) since ∧
    num (c_after r) = c_population r ∧ num st = num (c_after r) ∧
    times st = Z.of_nat (length (seeing (num (c_after r)) since)).

(** ** Notions used in the further properties *)

(** The test of [die]: the point is on a screen of [W] columns and [H] rows. *)
Definition on_screen (W H : Z) (p : cell) : Prop := 0 ≤ p.1 < W ∧ 0 ≤ p.2 < H.

#[global] Instance on_screen_dec W H p : Decision (on_screen W H p) :=
  ltac:(unfold on_screen; apply _).

(** The bounds that a detector keeps between calls. *)
Definition settled (st : BoredomDetector) : Prop :=
  -2 ≤ iteration st ≤ REPETITIONS * PATTERN_LENGTH ∧
  0 ≤ times st ≤ REPETITIONS ∧ 0 ≤ num st.

(** The calls of a run on a constant population that return true, by their
    index from 0: every fifteenth call after the first. *)
Definition bored_at (i : Z) : bool := (0 <? i) && (i `mod` 15 =? 0).

(** ** The terminal *)

(** What the code reads from the Blessings [Terminal] object [term]: its
    size, its number of colours, the functions that wrap a string in a
    colour or in reverse video, the strings that enter and leave the
    alternate character set, and the strings that move the cursor and clear
    to the end of the line. *)
Module term.
Record Terminal : Type := {
  width : Z;
  height : Z;
  number_of_colors : Z;
  on_bright_red : string → string;
  on_bright_green : string → string;
  on_bright_cyan : string → string;
  on_red : string → string;
  on_green : string → string;
  on_blue : string → string;
  reverse : string → string;
  smacs : string;
  rmacs : string;
  move : Z → Z → string;
  clear_eol : string
}.
End term.

(** ** cell_strings *)

(** [cell_strings(term)]: a list of three coloured spaces, or on a terminal
    of fewer than 8 colours a tuple of three strings. *)
Definition cell_strings (t : term.Terminal) : list string :=
  let num_colors := term.number_of_colors t in
  if 16 <=? num_colors then
    (λ f : string → string, f " ") <$>
      [term.on_bright_red t; term.on_bright_green t; term.on_bright_cyan t]
  else if 8 <=? num_colors then
    (λ f : string → string, f " ") <$>
      [term.on_red t; term.on_green t; term.on_blue t]
  else
    [ term.reverse t " ";
      term.smacs t +:+ term.reverse t "a" +:+ term.rmacs t;
      term.smacs t +:+ "a" +:+ term.rmacs t ].

(** ** draw and clear *)

(** [draw(board, term, cells)]: what is printed and where, one entry
    [((x, y), cells[state])] for each item of the board in the order of its
    iteration, or [None] when a subscript [cells[state]] raises
    [IndexError]. *)
Definition draw (b : board) (t : term.Terminal) (cells : list string)
    : option (list (cell * string)) :=
  mapM (λ kv : cell * Z,
          glyph ← subscript cells kv.2;
          Some (kv.1, glyph))
       (map_to_list b).

(** [clear(board, term, height)]: the strings printed, one for each [y] of
    [xrange(height)]. *)
Definition clear (b : board) (t : term.Terminal) (height : Z) : list string :=
  (λ y, term.move t y 0 +:+ term.clear_eol t) <$> seqZ 0 height.

(** ** main *)

Definition LOAD_FACTOR : Z := 9.
Definition NUDGING_LOAD_FACTOR : Z := LOAD_FACTOR * 3.

(** [board.update(other)]: the items of [other] are stored into [board]. *)
Definition update (b other : board) : board := other ∪ b.

(** What one turn of the loop of [main] leaves: the output of [draw] and of
    [clear], the board and the detector. *)
Record turn : Type := mkTurn {
  shown : list (cell * string);
  erased : list string;
  board_after : board;
  detector_after : BoredomDetector
}.

(** The body of the [while True] loop of [main].  [None] is the
    [IndexError] of [draw], which [main] does not catch.  The clock
    ([time], [sleep_until]) and [stdout.flush] are left out: they touch
    neither the board nor the detector. *)
Definition frame (t : term.Terminal) (cells : list string)
    (b : board) (detector : BoredomDetector) : M (option turn) :=
  let width := term.width t in
  let height := term.height t in
  let b := next_board b (die width height) in
  match draw b t cells with
  | None => mret None
  | Some out =>
      r ← is_bored_of detector b;
      b' ← (if (r.1 : bool)
            then nudge ← random_board (width - 1) (height - 1) NUDGING_LOAD_FACTOR;
                 mret (update b nudge)
            else mret b);
      mret (Some (mkTurn out (clear b' t height) b' r.2))
  end.

(** [n] turns of the loop. *)
Fixpoint frames (n : nat) (t : term.Terminal) (cells : list string)
    (b : board) (detector : BoredomDetector) : M (option (list turn)) :=
  match n with
  | O => mret (Some [])
  | S n' =>
      r ← frame t cells b detector;
      match r with
      | None => mret None
      | Some f =>
          rest ← frames n' t cells (board_after f) (detector_after f);
          mret ((f ::.) <$> rest)
      end
  end.

(** [main()] on the terminal [t], interrupted from the keyboard after [n]
    turns of its loop: the first board and what the turns left. *)
Definition main (n : nat) (t : term.Terminal) : M (option (board * list turn)) :=
  let width := term.width t in
  let height := term.height t in
  b ← random_board (width - 1) (height - 1) LOAD_FACTOR;
  turns ← frames n t (cell_strings t) b BoredomDetector_init;
  mret ((b,.) <$> turns).

(** A terminal of [w] by [h] with [colors] colours, for the examples. *)
Definition terminal (w h colors : Z) : term.Terminal :=
  {| term.width := w; term.height := h; term.number_of_colors := colors;
     term.on_bright_red := λ s, "R" +:+ s; term.on_bright_green := λ s, "G" +:+ s;
     term.on_bright_cyan := λ s, "C" +:+ s;
     term.on_red := λ s, "r" +:+ s; term.on_green := λ s, "g" +:+ s;
     term.on_blue := λ s, "b" +:+ s;
     term.reverse := λ s, "v" +:+ s; term.smacs := "("; term.rmacs := ")";
     term.move := λ y x, "m"; term.clear_eol := "K" |}.
Definition vt : term.Terminal := terminal 80 24 8.
Definition small : term.Terminal := terminal 8 6 0.

(** * Properties *)

(** ** The code on small inputs *)

Example die_keeps_the_screen :
  die 3 3 (2, 2) = Some (2, 2) ∧ die 3 3 (-1, 1) = None ∧ die 3 3 (3, 0) = None.
Proof. by vm_compute. Qed.

(** A column of three turns into a row: its ends are born (1), its centre
    has two neighbours (2). *)
Example blinker_turns :
  next_board blinker (die 3 3) = dict [((0, 1), 1); ((1, 1), 2); ((2, 1), 1)].
Proof. by vm_compute. Qed.

(** Each cell of a block has three neighbours (0). *)
Example block_stays :
  next_board (dict [((0, 0), 2); ((1, 0), 2); ((0, 1), 2); ((1, 1), 2)]) (die 3 3)
  = dict [((0, 0), 0); ((1, 0), 0); ((0, 1), 0); ((1, 1), 0)].
Proof. by vm_compute. Qed.

(** On the left edge the column loses the cell it would have given birth to
    off the screen. *)
Example edge_column_turns :
  next_board edge_column (die 3 3) = dict [((0, 1), 2); ((1, 1), 1)].
Proof. by vm_compute. Qed.

(** Duplicate draws collapse, and a later item replaces an earlier one. *)
Example dict_collapses :
  dict [((0, 0), 1); ((1, 0), 1); ((0, 0), 2)] = dict [((1, 0), 1); ((0, 0), 2)] ∧
  len (dict [((0, 0), 1); ((1, 0), 1); ((0, 0), 2)]) = 2.
Proof. by vm_compute. Qed.

Example random_board_raises :
  returned (random_board 3 3 0 (constant_source 0)) = None ∧
  returned (random_board (-3) (-3) 1 (constant_source 0)) = None ∧
  returned (random_board (-3) 3 1 (constant_source 0)) = Some ∅.
Proof. by vm_compute. Qed.

(** The first call on a new detector resets it; the jitter is the raw
    outcome reduced into -2 .. 0. *)
Example first_call :
  returned (is_bored_of BoredomDetector_init blinker (constant_source 2))
  = Some (false, mkDetector 0 3 0).
Proof. by vm_compute. Qed.

(** ** Neighbours *)

Lemma neighbors_sym p q : p ∈ neighbors q → q ∈ neighbors p.
Proof.
  destruct p as [px py], q as [qx qy]; unfold neighbors.
  rewrite !elem_of_cons, !elem_of_nil.
  intros H.
  repeat (destruct H as [H|H]; [injection H as -> ->|]); try done.
  all: set_unfold; repeat first [ left; f_equal; lia | right ].
Qed.

Lemma neighbors_NoDup p : NoDup (neighbors p).
Proof.
  destruct p as [x y]; unfold neighbors.
  repeat (apply NoDup_cons; split;
          [ rewrite ?elem_of_cons, elem_of_nil; intros H;
            repeat (destruct H as [H|H]; [injection H; lia|]); done |]).
  apply NoDup_nil_2.
Qed.

Lemma live_true b p : live b p = true ↔ p ∈ dom b.
Proof. unfold live. rewrite bool_decide_eq_true, elem_of_dom. done. Qed.

Lemma elem_of_points_to_recalc b p :
  p ∈ points_to_recalc b ↔ p ∈ dom b ∨ ∃ q, q ∈ dom b ∧ p ∈ neighbors q.
Proof.
  unfold points_to_recalc.
  rewrite elem_of_union, elem_of_list_to_set, list_elem_of_join.
  split; (intros [?|H]; [by left|right]).
  - destruct H as (l & Hp & Hl). apply list_elem_of_fmap in Hl as (q & -> & Hq).
    exists q. by rewrite <- elem_of_elements.
  - destruct H as (q & Hq & Hp). exists (neighbors q). split; [done|].
    apply list_elem_of_fmap. exists q. by rewrite elem_of_elements.
Qed.

(** ** Counting *)

Lemma count_of_tally b wrap p :
  count_of b wrap p = tally (λ n, in_board b (wrap n)) (neighbors p).
Proof.
  unfold count_of, tally. generalize (neighbors p) as l.
  induction l as [|a l IH]; [done|]. rewrite fmap_cons. simpl. by f_equal.
Qed.

Lemma tally_ext {A} (f g : A → bool) l :
  (∀ a, a ∈ l → f a = g a) → tally f l = tally g l.
Proof.
  induction l as [|a l IH]; simpl; intros H; [done|].
  rewrite (H a), IH; [done | | ]; intros; try apply H; set_solver.
Qed.

Lemma tally_zero {A} (f : A → bool) l :
  (∀ a, a ∈ l → f a = false) → tally f l = 0.
Proof.
  induction l as [|a l IH]; simpl; intros H; [done|].
  rewrite (H a), IH; [done | | ]; intros; try apply H; set_solver.
Qed.

Lemma tally_fmap {A B} (h : A → B) (f : B → bool) l :
  tally f (h <$> l) = tally (f ∘ h) l.
Proof.
  induction l as [|a l IH]; [done|]. rewrite fmap_cons. simpl. by f_equal.
Qed.

Lemma tally_filter {A} (f : A → bool) l :
  tally f l = Z.of_nat (length (filter (λ a, f a = true) l)).
Proof.
  induction l as [|a l IH]; simpl; [done|].
  rewrite filter_cons. destruct (decide (f a = true)) as [E|E].
  - rewrite E. simpl length. simpl Z.b2z. lia.
  - apply not_true_is_false in E. rewrite E. simpl Z.b2z. lia.
Qed.

Lemma tally_at_most_one {A} (f : A → bool) (c : A) l :
  NoDup l → (∀ a, a ∈ l → f a = true → a = c) → tally f l ≤ 1.
Proof.
  induction 1 as [|a l Ha Hl IH]; simpl; intros H; [lia|].
  destruct (f a) eqn:E; simpl.
  - assert (a = c) as -> by (apply H; [left|done]).
    rewrite tally_zero; [lia|]. intros a' Ha'.
    destruct (f a') eqn:E'; [|done].
    assert (a' = c) as -> by (apply H; [by right|done]). done.
  - apply IH. intros a' Ha'. apply H. by right.
Qed.

Lemma new_state_small count alive : count ≤ 1 → new_state count alive = None.
Proof.
  intros H. unfold new_state.
  destruct (Z.eqb_spec count 3); [lia|].
  destruct (Z.eqb_spec count 2); [lia|]. done.
Qed.

Lemma new_state_table count alive :
  new_state count alive =
    if decide (count = 3 ∧ alive = true) then Some Survived
    else if decide (count = 3 ∧ alive = false) then Some Born
    else if decide (count = 2 ∧ alive = true) then Some Stable
    else None.
Proof.
  unfold new_state.
  destruct (Z.eqb_spec count 3), (Z.eqb_spec count 2), alive; simpl;
    repeat case_decide; try done; try lia; intuition congruence.
Qed.

Lemma new_state_range count alive s :
  new_state count alive = Some s → s = Survived ∨ s = Born ∨ s = Stable.
Proof.
  rewrite new_state_table. repeat case_decide; intros [= <-]; auto.
Qed.

(** ** The loop under a policy that keeps a point where it is, or drops it *)

Section clipping.
Variable wrap : cell → option cell.
Hypothesis wrap_fixes : ∀ p q, wrap p = Some q → q = p.

Lemma lookup_recalc_ne b nb a q :
  a ≠ q → recalc b wrap nb a !! q = nb !! q.
Proof.
  intros Hne. unfold recalc.
  destruct (new_state _ _); [|done].
  destruct (wrap a) as [w|] eqn:Hw; [|done].
  apply wrap_fixes in Hw as ->. by rewrite lookup_insert_ne.
Qed.

Lemma lookup_recalc_eq b nb q :
  recalc b wrap nb q !! q = from_option Some (nb !! q) (verdict wrap b q).
Proof.
  unfold recalc, verdict.
  destruct (wrap q) as [w|] eqn:Hw.
  - apply wrap_fixes in Hw as ->.
    destruct (new_state _ _); simpl; [by rewrite lookup_insert_eq | done].
  - by destruct (new_state _ _).
Qed.

(** The loop leaves at [q] the verdict for [q], for the points it visits. *)
Lemma lookup_next_board_over pts b q :
  next_board_over pts b wrap !! q =
    if decide (q ∈ pts) then verdict wrap b q else None.
Proof.
  unfold next_board_over.
  induction pts as [|a pts IH] using rev_ind.
  - cbn [foldl]. rewrite lookup_empty.
    destruct (decide (q ∈ [])) as [Hq|]; [|done]. by apply elem_of_nil in Hq.
  - rewrite foldl_snoc. destruct (decide (a = q)) as [->|Hne].
    + rewrite lookup_recalc_eq, IH.
      destruct (decide (q ∈ pts ++ [q])) as [_|[]]; [|set_solver].
      destruct (verdict wrap b q); simpl; [done|]. by case_decide.
    + rewrite lookup_recalc_ne, IH by done.
      apply decide_ext. split.
      * intros ?. apply elem_of_app. by left.
      * intros [?|Hq]%elem_of_app; [done|].
        apply list_elem_of_singleton in Hq. by destruct Hne.
Qed.

Lemma count_of_far b q : q ∉ points_to_recalc b → count_of b wrap q = 0.
Proof.
  intros Hq. rewrite count_of_tally. apply tally_zero. intros n Hn.
  destruct (wrap n) as [w|] eqn:Hw; [|done]. simpl.
  apply wrap_fixes in Hw as ->.
  destruct (live b n) eqn:E; [|done]. apply live_true in E.
  destruct Hq. apply elem_of_points_to_recalc. right.
  exists n. split; [done|]. by apply neighbors_sym.
Qed.

(** A point that is not recalculated would not have been given a state. *)
Lemma verdict_far b q : q ∉ points_to_recalc b → verdict wrap b q = None.
Proof.
  intros Hq. unfold verdict. destruct (wrap q); [|done].
  rewrite count_of_far by done.
  assert (live b q = false) as ->; [|done].
  apply not_true_is_false. rewrite live_true. intros ?. apply Hq.
  apply elem_of_points_to_recalc. by left.
Qed.

Lemma lookup_next_board b q : next_board b wrap !! q = verdict wrap b q.
Proof.
  unfold next_board. rewrite lookup_next_board_over.
  case_decide as Hq; [done|]. symmetry. apply verdict_far.
  by rewrite <- elem_of_elements.
Qed.

(** The order in which the set of points is iterated does not matter. *)
Lemma next_board_over_order pts b :
  (∀ p, p ∈ pts ↔ p ∈ points_to_recalc b) →
  next_board_over pts b wrap = next_board b wrap.
Proof.
  intros Hpts. apply map_eq. intros q.
  rewrite lookup_next_board, lookup_next_board_over.
  case_decide as Hq; [done|]. symmetry. apply verdict_far. by rewrite <- Hpts.
Qed.

End clipping.

(** ** The policy [die] *)

Lemma die_Some W H p q :
  die W H p = Some q ↔ q = p ∧ (0 ≤ p.1 < W ∧ 0 ≤ p.2 < H).
Proof.
  destruct p as [x y]; unfold die; simpl.
  destruct ((0 <=? x) && (x <? W) && (0 <=? y) && (y <? H)) eqn:E.
  - split; [intros [= <-]; split; [done | lia] | by intros [-> _]].
  - split; [done | intros [_ ?]; lia].
Qed.

Lemma die_None W H p :
  die W H p = None ↔ ¬ (0 ≤ p.1 < W ∧ 0 ≤ p.2 < H).
Proof.
  rewrite eq_None_not_Some. split; intros Hn.
  - intros Hin. apply Hn. exists p. by apply die_Some.
  - intros [q Hq]. apply die_Some in Hq as [_ ?]. by apply Hn.
Qed.

Lemma die_fixes W H p q : die W H p = Some q → q = p.
Proof. intros Hq. by apply die_Some in Hq as [-> _]. Qed.

Lemma unclipped_fixes p q : unclipped p = Some q → q = p.
Proof. by intros [= ->]. Qed.

(** Under [die] the count is the number of neighbours that are on the screen
    and live. *)
Lemma count_of_die W H b p :
  count_of b (die W H) p =
    Z.of_nat (length (filter (λ n, (0 ≤ n.1 < W ∧ 0 ≤ n.2 < H) ∧ n ∈ dom b)
                             (neighbors p))).
Proof.
  rewrite count_of_tally, tally_filter. do 2 f_equal.
  apply list_filter_iff. intros n.
  destruct (die W H n) as [q|] eqn:Hq; simpl.
  - apply die_Some in Hq as [-> Hin]. rewrite live_true. tauto.
  - apply die_None in Hq. split; [done | tauto].
Qed.

(** C1, as amended.  Under the policy [die] of a [W] by [H] screen, for
    every input board and every point [p], recalculated or not: the count of
    [p] is the number of its neighbours that are on the screen and live in
    the input board; when [p] is on the screen, the output board holds [p]
    with state Survived (0) if the count is 3 and [p] is live, with state
    Born (1) if the count is 3 and [p] is not live, with state Stable (2) if
    the count is 2 and [p] is live, and does not hold [p] otherwise; when [p]
    is off the screen the output board does not hold [p], whatever its
    count. *)
Theorem next_board_die_rule W H b p :
  let count := count_of b (die W H) p in
  count = Z.of_nat (length (filter (λ n, (0 ≤ n.1 < W ∧ 0 ≤ n.2 < H) ∧ n ∈ dom b)
                                   (neighbors p))) ∧
  next_board b (die W H) !! p =
    if decide (0 ≤ p.1 < W ∧ 0 ≤ p.2 < H) then
      if decide (count = 3 ∧ p ∈ dom b) then Some Survived
      else if decide (count = 3 ∧ p ∉ dom b) then Some Born
      else if decide (count = 2 ∧ p ∈ dom b) then Some Stable
      else None
    else None.
Proof.
  intros count. split; [apply count_of_die|].
  rewrite (lookup_next_board _ (die_fixes W H)). unfold verdict.
  case_decide as Hin.
  - destruct (die W H p) eqn:Hd; [|by apply die_None in Hd].
    rewrite new_state_table. fold count.
    destruct (live b p) eqn:Hl.
    + apply live_true in Hl. repeat case_decide; try done; intuition congruence.
    + assert (p ∉ dom b) by (rewrite <- live_true; congruence).
      repeat case_decide; try done; intuition congruence.
  - by apply die_None in Hin as ->.
Qed.

(** C1, as stated, fails: on a 3 by 3 screen with the column
    (0,0), (0,1), (0,2) live, the point (-1,1) is recalculated, its count is
    3 and it is not live, yet the output board does not hold it with state
    Born (it does not hold it at all). *)
Lemma off_screen_candidate_not_born :
  let p := (-1, 1) in
  p ∈ points_to_recalc edge_column ∧
  count_of edge_column (die 3 3) p = 3 ∧ live edge_column p = false ∧
  next_board edge_column (die 3 3) !! p ≠ Some Born ∧
  next_board edge_column (die 3 3) !! p = None.
Proof.
  cbv zeta. split; [|split; [|split; [|split]]].
  - apply (bool_decide_unpack _). vm_compute. exact I.
  - vm_compute. reflexivity.
  - vm_compute. reflexivity.
  - vm_compute. discriminate.
  - vm_compute. reflexivity.
Qed.

(** C2.  For every [W] and [H] and every input board, with keys off the
    screen or not, every key [(x, y)] of [next_board board die] has
    [0 <= x < W] and [0 <= y < H]; in particular [x] is never -1. *)
Theorem next_board_die_on_screen W H b x y :
  (x, y) ∈ dom (next_board b (die W H)) →
  (0 ≤ x < W ∧ 0 ≤ y < H) ∧ x ≠ -1.
Proof.
  rewrite elem_of_dom, (lookup_next_board _ (die_fixes W H)). unfold verdict.
  destruct (die W H (x, y)) eqn:Hd; [|by intros [? ?]].
  apply die_Some in Hd as [_ Hin]. simpl in Hin. intros _. lia.
Qed.

Lemma next_board_die_on_screen_witness :
  (0, 1) ∈ dom (next_board blinker (die 3 3)) ∧
  (0 ≤ 0 < 3 ∧ 0 ≤ 1 < 3) ∧ 0 ≠ -1.
Proof.
  assert ((0, 1) ∈ dom (next_board blinker (die 3 3))) as Hin.
  { apply (bool_decide_unpack _). vm_compute. exact I. }
  split; [exact Hin|]. exact (next_board_die_on_screen 3 3 blinker 0 1 Hin).
Defined.

(** C8.  For every screen, every cell [c] (on the screen or not) and every
    state [s], the board that holds [c] alone becomes the empty board: [c]
    is dropped and none of its neighbours is born. *)
Theorem single_cell_dies W H c s : next_board {[ c := s ]} (die W H) = ∅.
Proof.
  apply map_eq. intros p.
  rewrite (lookup_next_board _ (die_fixes W H)), lookup_empty. unfold verdict.
  destruct (die W H p); [|done].
  apply new_state_small. rewrite count_of_tally.
  apply (tally_at_most_one _ c); [apply neighbors_NoDup|].
  intros n _ Hn. destruct (die W H n) as [q|] eqn:Hq; [|done].
  apply die_fixes in Hq as ->. simpl in Hn. apply live_true in Hn.
  rewrite dom_singleton_L in Hn. set_solver.
Qed.

(** The states that the loop writes, under any policy and in any order. *)
Lemma next_board_over_range pts b wrap p s :
  next_board_over pts b wrap !! p = Some s →
  s = Survived ∨ s = Born ∨ s = Stable.
Proof.
  unfold next_board_over.
  induction pts as [|a pts IH] using rev_ind.
  - cbn [foldl]. by rewrite lookup_empty.
  - rewrite foldl_snoc. unfold recalc at 1.
    destruct (new_state _ _) as [state|] eqn:Hstate; [|done].
    destruct (wrap a) as [w|]; [|done].
    destruct (decide (w = p)) as [->|Hne].
    + rewrite lookup_insert_eq. intros [= <-]. by eapply new_state_range.
    + by rewrite lookup_insert_ne.
Qed.

(** ** Translation, and the glider *)

Lemma withinb_within W H b : withinb W H b = true → within W H b.
Proof.
  unfold withinb, within. rewrite forallb_forall. intros Hall p Hp.
  specialize (Hall p). rewrite <- list_elem_of_In, elem_of_elements in Hall.
  specialize (Hall Hp). lia.
Qed.

#[local] Instance translate_inj dx dy :
  Inj (=) (=) (λ p : cell, (p.1 + dx, p.2 + dy)).
Proof. intros [x1 y1] [x2 y2] [= ? ?]. f_equal; lia. Qed.

Lemma lookup_translate dx dy b p :
  translate dx dy b !! p = b !! (p.1 - dx, p.2 - dy).
Proof.
  unfold translate.
  rewrite <- (lookup_kmap (λ q : cell, (q.1 + dx, q.2 + dy)) b (p.1 - dx, p.2 - dy)).
  f_equal. destruct p as [x y]. simpl. f_equal; lia.
Qed.

Lemma live_translate dx dy b p :
  live (translate dx dy b) p = live b (p.1 - dx, p.2 - dy).
Proof. unfold live. by rewrite lookup_translate. Qed.

Lemma neighbors_translate dx dy p :
  neighbors (p.1 - dx, p.2 - dy) =
    (λ n : cell, (n.1 - dx, n.2 - dy)) <$> neighbors p.
Proof.
  destruct p as [x y]. unfold neighbors. simpl.
  repeat (apply (f_equal2 cons); [apply (f_equal2 pair); lia|]). done.
Qed.

Lemma count_of_translate dx dy b p :
  count_of (translate dx dy b) unclipped p =
    count_of b unclipped (p.1 - dx, p.2 - dy).
Proof.
  rewrite !count_of_tally, neighbors_translate, tally_fmap.
  apply tally_ext. intros n _. simpl. apply live_translate.
Qed.

Lemma lookup_next_board_unclipped b p :
  next_board b unclipped !! p = new_state (count_of b unclipped p) (live b p).
Proof. by rewrite (lookup_next_board _ unclipped_fixes). Qed.

(** On the unbounded grid a generation commutes with a translation. *)
Lemma next_board_translate dx dy b :
  next_board (translate dx dy b) unclipped =
    translate dx dy (next_board b unclipped).
Proof.
  apply map_eq. intros p.
  rewrite lookup_translate, !lookup_next_board_unclipped.
  by rewrite count_of_translate, live_translate.
Qed.

(** Clipping changes nothing as long as the board and its successor on the
    unbounded grid stay on the screen. *)
Lemma next_board_die_unclipped W H b :
  within W H b → within W H (next_board b unclipped) →
  next_board b (die W H) = next_board b unclipped.
Proof.
  intros Hb Hnext. apply map_eq. intros p.
  rewrite (lookup_next_board _ (die_fixes W H)). unfold verdict.
  destruct (die W H p) as [q|] eqn:Hp.
  - rewrite lookup_next_board_unclipped. f_equal.
    rewrite !count_of_tally. apply tally_ext. intros n _.
    destruct (die W H n) as [n'|] eqn:Hn; simpl.
    + by apply die_fixes in Hn as ->.
    + symmetry. apply not_true_is_false. rewrite live_true. intros Hl.
      apply die_None in Hn. apply Hn. by apply Hb.
  - symmetry. apply not_elem_of_dom. intros Hin. apply die_None in Hp.
    apply Hp. by apply Hnext.
Qed.

Lemma within_translate W H dx dy b :
  within 4 4 b → 0 ≤ dx → 0 ≤ dy → dx + 3 < W → dy + 3 < H →
  within W H (translate dx dy b).
Proof.
  intros Hb ???? p Hp. apply elem_of_dom in Hp.
  rewrite lookup_translate in Hp. apply elem_of_dom in Hp.
  apply Hb in Hp. simpl in Hp. lia.
Qed.

Lemma translate_translate dx dy dx' dy' b :
  translate dx dy (translate dx' dy' b) = translate (dx + dx') (dy + dy') b.
Proof.
  apply map_eq. intros p. rewrite !lookup_translate. simpl. f_equal. f_equal; lia.
Qed.

Lemma dom_translate_eq dx dy b b' :
  dom b = dom b' → dom (translate dx dy b) = dom (translate dx dy b').
Proof.
  intros Hd. apply set_eq. intros p.
  rewrite !elem_of_dom, !lookup_translate, <- !elem_of_dom. by rewrite Hd.
Qed.

(** One clipped generation of a pattern that lives in a 4 by 4 box placed
    on the screen. *)
Lemma die_step W H dx dy b :
  withinb 4 4 b = true → withinb 4 4 (next_board b unclipped) = true →
  0 ≤ dx → 0 ≤ dy → dx + 3 < W → dy + 3 < H →
  next_board (translate dx dy b) (die W H) =
    translate dx dy (next_board b unclipped).
Proof.
  intros Hb Hn ????. rewrite <- next_board_translate.
  apply next_board_die_unclipped.
  - apply within_translate; auto using withinb_within.
  - rewrite next_board_translate. apply within_translate; auto using withinb_within.
Qed.

(** C7.  The glider (1,0), (2,1), (0,2), (1,2), (2,2) has five cells and,
    moved by any [(dx, dy)] that leaves the box [dx .. dx+3] by
    [dy .. dy+3] on the [W] by [H] screen, four generations under [die] give
    a board whose keys are exactly the keys of the glider moved by
    [(dx + 1, dy + 1)]. *)
Theorem glider_translates W H dx dy :
  0 ≤ dx → 0 ≤ dy → dx + 3 < W → dy + 3 < H →
  size glider = 5%nat ∧
  dom (generations 4 (die W H) (translate dx dy glider)) =
    dom (translate (dx + 1) (dy + 1) glider).
Proof.
  intros ????. split; [by vm_compute|].
  unfold generations. simpl Nat.iter.
  rewrite !die_step by (done || by vm_compute).
  rewrite <- translate_translate. apply dom_translate_eq.
  by vm_compute.
Qed.

Lemma glider_translates_witness :
  (0 ≤ 3 ∧ 0 ≤ 2 ∧ 3 + 3 < 10 ∧ 2 + 3 < 8) ∧
  size glider = 5%nat ∧
  dom (generations 4 (die 10 8) (translate 3 2 glider)) =
    dom (translate (3 + 1) (2 + 1) glider).
Proof.
  split; [lia|]. apply (glider_translates 10 8 3 2); lia.
Defined.

(** ** The random source *)

Lemma bind_Returns {A B} (m : M A) (k : A → M B) src v rest :
  (m ≫= k) src = Returns v rest ↔
  ∃ a src', m src = Returns a src' ∧ k a src' = Returns v rest.
Proof.
  unfold mbind, M_bind. destruct (m src) as [a src'|e].
  - split; [by exists a, src' | by intros (? & ? & [= <- <-] & ?)].
  - split; [done | by intros (? & ? & ? & ?)].
Qed.

Lemma returned_Some {A} (o : outcome A) a :
  returned o = Some a ↔ ∃ rest, o = Returns a rest.
Proof.
  destruct o as [a' rest|e]; simpl.
  - split; [intros [= ->]; by exists rest | by intros (? & [= -> _])].
  - split; [done | by intros (? & ?)].
Qed.

Lemma randint_Returns a b src v rest :
  randint a b src = Returns v rest → a ≤ v ≤ b.
Proof.
  unfold randint. destruct (Z.leb_spec a b); [|done].
  intros [= <- _]. pose proof (Z.mod_pos_bound (src 0%nat) (b - a + 1)). lia.
Qed.

Lemma randint_total a b src :
  a ≤ b → ∃ v, a ≤ v ≤ b ∧ randint a b src = Returns v (λ i, src (S i)).
Proof.
  intros Hab. unfold randint. destruct (Z.leb_spec a b); [|lia].
  eexists. split; [|done].
  pose proof (Z.mod_pos_bound (src 0%nat) (b - a + 1)). lia.
Qed.


(** ** random_board *)

Lemma items_of_Returns n max_x max_y src items rest :
  items_of n max_x max_y src = Returns items rest →
  length items = n ∧ Forall (item_ok max_x max_y) items.
Proof.
  revert src items rest. induction n as [|n IH]; intros src items rest; simpl.
  - intros [= <- _]. by split.
  - intros (x & s1 & Hx & (y & s2 & Hy & (l & s3 & Hl & [= <- _])%bind_Returns)%bind_Returns)%bind_Returns.
    apply randint_Returns in Hx, Hy. apply IH in Hl as [<- Hl].
    split; [done|]. by constructor.
Qed.

Lemma items_of_total n max_x max_y src :
  0 ≤ max_x → 0 ≤ max_y →
  ∃ items rest, items_of n max_x max_y src = Returns items rest.
Proof.
  intros Hx Hy. revert src. induction n as [|n IH]; intros src; simpl.
  - by eexists _, _.
  - destruct (randint_total 0 max_x src Hx) as (x & _ & Ex).
    destruct (randint_total 0 max_y (λ i, src (S i)) Hy) as (y & _ & Ey).
    destruct (IH (λ i, src (S (S i)))) as (l & rest & El).
    exists (((x, y), 0) :: l), rest.
    unfold mbind, M_bind. rewrite Ex, Ey, El. done.
Qed.

Lemma dict_snoc items kv : dict (items ++ [kv]) = <[kv.1 := kv.2]> (dict items).
Proof. unfold dict. by rewrite foldl_snoc. Qed.

Lemma dict_lookup_Some items k v :
  dict items !! k = Some v → (k, v) ∈ items.
Proof.
  induction items as [|[k' v'] items IH] using rev_ind.
  - unfold dict. simpl. by rewrite lookup_empty.
  - rewrite dict_snoc, elem_of_app, list_elem_of_singleton. simpl.
    destruct (decide (k' = k)) as [->|Hne].
    + rewrite lookup_insert_eq. intros [= ->]. by right.
    + rewrite lookup_insert_ne by done. intros ?. left. by apply IH.
Qed.

(** Items with the same key collapse: a dict has at most as many keys as it
    was given items. *)
Lemma dict_size items : (size (dict items) ≤ length items)%nat.
Proof.
  induction items as [|kv items IH] using rev_ind.
  - unfold dict. simpl. by rewrite map_size_empty.
  - rewrite dict_snoc, length_app, map_size_insert. simpl.
    destruct (dict items !! kv.1); simpl; lia.
Qed.

Lemma random_board_Returns max_x max_y load_factor src b rest :
  random_board max_x max_y load_factor src = Returns b rest →
  ∃ items, b = dict items ∧
    length items = Z.to_nat (max_x * max_y / load_factor) ∧
    Forall (item_ok max_x max_y) items.
Proof.
  unfold random_board. destruct (Z.eqb_spec load_factor 0); [done|].
  intros (items & s & Hitems & [= <- _])%bind_Returns.
  apply items_of_Returns in Hitems as [? ?]. by exists items.
Qed.

(** C3, as amended.  For every [max_x], [max_y], [load_factor] and every
    outcome of the random source, every cell of the board that
    [random_board] returns has the same fixed state 0: the value that the
    generation advance gives to a live cell with three neighbours
    (Survived), not the value 2 of its two-neighbour branch. *)
Theorem random_board_state_Survived max_x max_y load_factor src b p s :
  returned (random_board max_x max_y load_factor src) = Some b →
  b !! p = Some s →
  s = 0 ∧ s = Survived ∧ new_state 3 true = Some s.
Proof.
  intros (rest & Hb)%returned_Some Hp.
  apply random_board_Returns in Hb as (items & -> & _ & Hall).
  apply dict_lookup_Some in Hp. rewrite Forall_forall in Hall.
  destruct (Hall _ Hp) as [_ Hs]. simpl in Hs. by subst s.
Qed.

Lemma random_board_state_Survived_witness :
  (returned (random_board 3 3 1 (constant_source 0)) = Some {[ (0, 0) := 0 ]} ∧
   ({[ (0, 0) := 0 ]} : board) !! (0, 0) = Some 0) ∧
  0 = 0 ∧ 0 = Survived ∧ new_state 3 true = Some 0.
Proof.
  assert (returned (random_board 3 3 1 (constant_source 0))
          = Some {[ (0, 0) := 0 ]}) as Hb by (vm_compute; reflexivity).
  assert (({[ (0, 0) := 0 ]} : board) !! (0, 0) = Some 0) as Hp
    by (vm_compute; reflexivity).
  split; [by split|].
  exact (random_board_state_Survived 3 3 1 (constant_source 0) _ (0, 0) 0 Hb Hp).
Defined.

(** C3, as stated, fails: [random_board(3, 3, 1)] on the source whose raw
    outcomes are all 0 returns a board that holds (0,0) with state 0, which
    is not the state Stable (2) of the two-neighbour branch. *)
Lemma random_board_state_not_Stable :
  ∃ b, returned (random_board 3 3 1 (constant_source 0)) = Some b ∧
       b !! (0, 0) = Some 0 ∧ b !! (0, 0) ≠ Some Stable ∧
       new_state 2 true = Some Stable.
Proof.
  eexists. split; [by vm_compute|]. split; [by vm_compute|].
  split; [by vm_compute | done].
Qed.

(** C9.  For [max_x >= 0], [max_y >= 0], [load_factor >= 1] and every
    outcome of the random source, [random_board] returns a board; each of
    its keys [(x, y)] has [0 <= x <= max_x] and [0 <= y <= max_y], and it
    has at most [floor(max_x * max_y / load_factor)] keys. *)
Theorem random_board_bounds max_x max_y load_factor src :
  0 ≤ max_x → 0 ≤ max_y → 1 ≤ load_factor →
  ∃ b, returned (random_board max_x max_y load_factor src) = Some b ∧
       (∀ x y, (x, y) ∈ dom b → 0 ≤ x ≤ max_x ∧ 0 ≤ y ≤ max_y) ∧
       len b ≤ max_x * max_y / load_factor.
Proof.
  intros Hx Hy Hl.
  destruct (items_of_total (Z.to_nat (max_x * max_y / load_factor))
              max_x max_y src Hx Hy) as (items & rest & Hitems).
  assert (random_board max_x max_y load_factor src = Returns (dict items) rest) as Hb.
  { unfold random_board. destruct (Z.eqb_spec load_factor 0); [lia|].
    unfold mbind, M_bind. by rewrite Hitems. }
  exists (dict items). split; [by rewrite Hb|].
  apply items_of_Returns in Hitems as [Hlen Hall]. split.
  - intros x y [s Hs]%elem_of_dom. apply dict_lookup_Some in Hs.
    rewrite Forall_forall in Hall. by destruct (Hall _ Hs) as [? _].
  - unfold len. pose proof (dict_size items).
    assert (0 ≤ max_x * max_y / load_factor) by (apply Z.div_pos; nia).
    lia.
Qed.

Lemma random_board_bounds_witness :
  (0 ≤ 79 ∧ 0 ≤ 23 ∧ 1 ≤ 9) ∧
  ∃ b, returned (random_board 79 23 9 (λ i, Z.of_nat i * 7)) = Some b ∧
       (∀ x y, (x, y) ∈ dom b → 0 ≤ x ≤ 79 ∧ 0 ≤ y ≤ 23) ∧
       len b ≤ 79 * 23 / 9.
Proof.
  split; [lia|]. apply (random_board_bounds 79 23 9); lia.
Defined.

(** ** The states handed to draw *)

(** C10.  Every state stored in a board that the core emits (returned by
    [random_board] for any arguments and any outcome of the source, or
    assembled by the loop of [next_board] for any input board, any policy
    and any iteration order) is 0, 1 or 2, so that the subscript
    [cells[state]] of [draw] finds an entry in every table of three. *)
Theorem emitted_states_in_range (nb : board) (p : cell) (s : Z) :
  emitted nb → nb !! p = Some s →
  (s = 0 ∨ s = 1 ∨ s = 2) ∧
  ∀ (A : Type) (cells : list A), length cells = 3%nat → is_Some (subscript cells s).
Proof.
  intros Hnb Hp.
  assert (s = 0 ∨ s = 1 ∨ s = 2) as Hs.
  { destruct Hnb as [max_x max_y load_factor src b Hb | pts b wrap].
    - apply returned_Some in Hb as (rest & Hb).
      apply random_board_Returns in Hb as (items & -> & _ & Hall).
      apply dict_lookup_Some in Hp. rewrite Forall_forall in Hall.
      destruct (Hall _ Hp) as [_ Hs]. by left.
    - by apply next_board_over_range in Hp. }
  split; [done|]. intros A cells Hlen. unfold subscript.
  destruct (Z.leb_spec 0 s); [|lia].
  apply lookup_lt_is_Some. lia.
Qed.

Lemma emitted_states_in_range_witness :
  (emitted (next_board blinker (die 3 3)) ∧
   next_board blinker (die 3 3) !! (0, 1) = Some 1) ∧
  (1 = 0 ∨ 1 = 1 ∨ 1 = 2) ∧
  ∀ (A : Type) (cells : list A), length cells = 3%nat → is_Some (subscript cells 1).
Proof.
  assert (emitted (next_board blinker (die 3 3))) as Hnb
    by exact (emitted_next (elements (points_to_recalc blinker)) blinker (die 3 3)).
  assert (next_board blinker (die 3 3) !! (0, 1) = Some 1) as Hp
    by (vm_compute; reflexivity).
  split; [by split|].
  exact (emitted_states_in_range _ (0, 1) 1 Hnb Hp).
Defined.

(** ** BoredomDetector *)

Lemma is_bored_of_traced_Returns self b src r rest :
  is_bored_of_traced self b src = Returns r rest →
  stepped (mkCall self (len b) r.1.1 r.1.2 r.2).
Proof.
  unfold is_bored_of_traced, stepped. simpl.
  destruct (_ || _) eqn:E.
  - intros (j & s & Hj%randint_Returns & [= <- _])%bind_Returns. simpl.
    rewrite E. repeat split; lia.
  - intros [= <- _]. simpl. rewrite E. repeat split; lia.
Qed.

(** [is_bored_of] never raises. *)
Lemma is_bored_of_traced_total self b src :
  ∃ r rest, is_bored_of_traced self b src = Returns r rest.
Proof.
  unfold is_bored_of_traced. destruct (_ || _).
  - destruct (randint_total (-2) 0 src) as (j & _ & Hj); [lia|].
    eexists _, _. unfold mbind, M_bind. rewrite Hj. done.
  - by eexists _, _.
Qed.

(** The caller sees the first and last components of the traced call. *)
Lemma is_bored_of_traced_erase self b src :
  returned (is_bored_of self b src) =
    (λ r, (r.1.1, r.2)) <$> returned (is_bored_of_traced self b src).
Proof.
  unfold is_bored_of, mbind, M_bind.
  by destruct (is_bored_of_traced self b src).
Qed.

Lemma run_Returns self boards src tr rest :
  run self boards src = Returns tr rest →
  trace_from self tr ∧ c_population <$> tr = len <$> boards.
Proof.
  revert self src tr rest.
  induction boards as [|b boards IH]; intros self src tr rest; simpl.
  - by intros [= <- _].
  - intros (r & s1 & Hr & (tr' & s2 & Htr & [= <- _])%bind_Returns)%bind_Returns.
    apply is_bored_of_traced_Returns in Hr. apply IH in Htr as [Htr Hpop].
    split; [done|]. rewrite !fmap_cons. by f_equal.
Qed.

Lemma run_total self boards src :
  ∃ tr, returned (run self boards src) = Some tr.
Proof.
  revert self src. induction boards as [|b boards IH]; intros self src; simpl.
  - by eexists.
  - destruct (is_bored_of_traced_total self b src) as (r & s1 & Hr).
    destruct (IH r.2 s1) as (tr & (s2 & Htr)%returned_Some).
    eexists. unfold mbind, M_bind. rewrite Hr, Htr. done.
Qed.

Lemma run_trace self boards src tr :
  returned (run self boards src) = Some tr →
  trace_from self tr ∧ c_population <$> tr = len <$> boards.
Proof. intros (rest & Hrun)%returned_Some. by eapply run_Returns. Qed.

Lemma trace_from_app self l1 l2 :
  trace_from self (l1 ++ l2) ↔
  trace_from self l1 ∧ trace_from (final self l1) l2.
Proof.
  revert self. induction l1 as [|c l1 IH]; intros self; simpl.
  - tauto.
  - rewrite IH. tauto.
Qed.

Lemma final_snoc self tr c : final self (tr ++ [c]) = c_after c.
Proof. unfold final. by rewrite foldl_snoc. Qed.

Lemma seeing_snoc p since c :
  Z.of_nat (length (seeing p (since ++ [c]))) =
    Z.of_nat (length (seeing p since)) + (if c_population c =? p then 1 else 0).
Proof.
  unfold seeing. rewrite filter_app, length_app, filter_cons, filter_nil.
  destruct (decide (c_population c = p)), (Z.eqb_spec (c_population c) p);
    simpl; lia.
Qed.

Lemma first_call_resets c :
  c_before c = BoredomDetector_init → stepped c → c_reset c = true.
Proof. intros Hc (_ & -> & _). rewrite Hc. done. Qed.

(** After at least one call on a new detector there has been a reset, and
    [times] counts the calls since the last one that saw the population it
    recorded. *)
Lemma since_reset_inv pre :
  pre ≠ [] → trace_from BoredomDetector_init pre →
  since_reset pre (final BoredomDetector_init pre).
Proof.
  induction pre as [|c pre IH] using rev_ind; [done|]. intros _.
  rewrite trace_from_app, final_snoc. simpl. intros (Hpre & Hc & Hstep & _).
  destruct (c_reset c) eqn:Hreset.
  - exists pre, c, []. destruct Hstep as (_ & _ & Hafter).
    rewrite Hreset in Hafter. destruct Hafter as (_ & Hnum & Htimes).
    by repeat split.
  - destruct pre as [|c0 pre0] using rev_ind.
    { apply first_call_resets in Hstep; [congruence | done]. }
    clear IHpre0.
    destruct IH as (pre' & r & since & Hsplit & Hr & Hsince & Hnum & Hst & Htimes);
      [by destruct pre0 | done |].
    exists pre', r, (since ++ [c]).
    destruct Hstep as (_ & _ & Hafter). rewrite Hreset, Hc in Hafter.
    destruct Hafter as (_ & Hnum' & Htimes').
    repeat split; try done.
    + rewrite Hsplit. by rewrite <- app_assoc.
    + apply Forall_app. split; [done | by constructor].
    + congruence.
    + rewrite seeing_snoc, Htimes', Htimes, <- Hst. destruct (_ =? _); lia.
Qed.

(** C4.  For every list of boards fed to a new detector and every outcome
    of the random source, the run returns one call record per board, and
    whenever a call [c] returned true there is a most recent earlier reset
    [r] (no call strictly between [r] and [c] reset), the population recorded
    by [r] is the population of its board, and at least REPETITIONS + 1 = 15
    of the calls after [r] up to and including [c] saw that population; and
    a call that does not reset leaves [times] unchanged or one larger. *)
Theorem bored_only_after_repetitions boards src :
  ∃ tr, returned (run BoredomDetector_init boards src) = Some tr ∧
    length tr = length boards ∧
    (∀ pre c post, tr = pre ++ c :: post → c_bored c = true →
       ∃ pre' r since,
         pre = pre' ++ r :: since ∧ c_reset r = true ∧
         Forall (λ e, c_reset e = false) since ∧
         num (c_after r) = c_population r ∧
         REPETITIONS + 1 ≤
           Z.of_nat (length (seeing (num (c_after r)) (since ++ [c])))) ∧
    (∀ c, c ∈ tr → c_reset c = false →
       times (c_after c) = times (c_before c) ∨
       times (c_after c) = times (c_before c) + 1).
Proof.
  destruct (run_total BoredomDetector_init boards src) as (tr & Hrun).
  exists tr. split; [done|].
  apply run_trace in Hrun as [Htr Hpop]. split; [|split].
  - apply (f_equal length) in Hpop. by rewrite !length_fmap in Hpop.
  - intros pre c post -> Hbored.
    apply trace_from_app in Htr as (Hpre & Hc & Hstep & _).
    destruct pre as [|c0 pre0] using rev_ind.
    { simpl in Hc. destruct Hstep as (Hb & _). rewrite Hbored, Hc in Hb.
      simpl in Hb. unfold REPETITIONS in Hb. destruct (_ =? _); lia. }
    clear IHpre0.
    destruct (since_reset_inv (pre0 ++ [c0])) as
      (pre' & r & since & Hsplit & Hr & Hsince & Hnum & Hst & Htimes);
      [by destruct pre0 | done |].
    exists pre', r, since. repeat split; try done.
    rewrite seeing_snoc, <- Htimes, <- Hst, <- Hc.
    destruct Hstep as (Hb & _). rewrite Hbored in Hb.
    destruct (_ =? _); lia.
  - intros c Hc Hreset. clear Hpop.
    revert Htr. generalize BoredomDetector_init.
    induction tr as [|c' tr IH]; intros st; simpl; [by apply elem_of_nil in Hc|].
    intros (Hbefore & Hstep & Htr).
    apply elem_of_cons in Hc as [<-|Hc]; [|by eapply IH].
    destruct Hstep as (_ & _ & Hafter). rewrite Hreset in Hafter.
    destruct Hafter as (_ & _ & ->). destruct (_ =? _); lia.
Qed.

Lemma bored_only_after_repetitions_witness :
  ∃ tr pre c,
    returned (run BoredomDetector_init (replicate 16 ∅) (constant_source 0)) = Some tr ∧
    tr = pre ++ [c] ∧ c_bored c = true ∧
    ∃ pre' r since,
      pre = pre' ++ r :: since ∧ c_reset r = true ∧
      Forall (λ e, c_reset e = false) since ∧
      num (c_after r) = c_population r ∧
      REPETITIONS + 1 ≤
        Z.of_nat (length (seeing (num (c_after r)) (since ++ [c]))).
Proof.
  destruct (bored_only_after_repetitions (replicate 16 ∅) (constant_source 0))
    as (tr & Hrun & Hlen & Hbored & _).
  exists tr, (take 15 tr),
    (mkCall (mkDetector 12 0 14) 0 true true (mkDetector (-2) 0 0)).
  assert (tr = take 15 tr ++
            [mkCall (mkDetector 12 0 14) 0 true true (mkDetector (-2) 0 0)])
    as Hsplit.
  { revert Hrun. clear. intros Hrun. vm_compute in Hrun.
    injection Hrun as <-. vm_compute. reflexivity. }
  split; [exact Hrun|]. split; [exact Hsplit|]. split; [reflexivity|].
  exact (Hbored _ _ [] Hsplit eq_refl).
Defined.

Lemma increasing_cons a l :
  increasing (a :: l) = true → Forall (λ b, a < b) l ∧ increasing l = true.
Proof.
  revert a. induction l as [|b l IH]; intros a; [done|].
  simpl increasing at 1. intros [Hab Hl]%andb_true_iff. split; [|done].
  constructor; [lia|].
  apply IH in Hl as [Hl _]. eapply Forall_impl; [done|]. simpl. lia.
Qed.

(** After a reset, calls that see larger populations do not reset before
    [iteration] passes 56. *)
Lemma quiet_run tr self p :
  trace_from self tr → num self = p → times self = 0 →
  iteration self + Z.of_nat (length tr) ≤ REPETITIONS * PATTERN_LENGTH →
  Forall (λ c, p < c_population c) tr →
  Forall (λ c, c_reset c = false) tr.
Proof.
  revert self. induction tr as [|c tr IH]; intros self; simpl; [done|].
  intros (Hc & (Hb & Hr & Hafter) & Htr) Hnum Htimes Hit Hpops.
  apply Forall_cons in Hpops as [Hpop Hpops]. rewrite Hc in *.
  assert (c_reset c = false) as Hreset.
  { rewrite Hr, Hb. unfold REPETITIONS, PATTERN_LENGTH in *.
    destruct (_ =? _) eqn:E; lia. }
  rewrite Hreset in Hafter. destruct Hafter as (Hit' & Hnum' & Htimes').
  constructor; [done|]. apply (IH (c_after c)); try done; try lia.
  rewrite Htimes'. destruct (Z.eqb_spec (c_population c) (num self)); lia.
Qed.

Lemma Forall_through {A B} (f : A → B) (P : B → Prop) l :
  Forall P (f <$> l) ↔ Forall (λ a, P (f a)) l.
Proof. apply Forall_fmap. Qed.

Lemma Forall_fmap_replicate {A B} (f : A → B) (y : B) l :
  Forall (λ x, f x = y) l → f <$> l = replicate (length l) y.
Proof. induction 1; simpl; [done | by f_equal]. Qed.

(** The states of such a run: each call leaves [num] and [times] as they
    were and adds one to [iteration]. *)
Lemma quiet_states tr it p :
  trace_from (mkDetector it p 0) tr →
  it + Z.of_nat (length tr) ≤ REPETITIONS * PATTERN_LENGTH →
  Forall (λ c, p < c_population c) tr →
  c_reset <$> tr = replicate (length tr) false ∧
  c_bored <$> tr = replicate (length tr) false ∧
  c_before <$> tr = (λ k, mkDetector k p 0) <$> seqZ it (Z.of_nat (length tr)) ∧
  c_after <$> tr = (λ k, mkDetector k p 0) <$> seqZ (it + 1) (Z.of_nat (length tr)).
Proof.
  revert it. induction tr as [|c tr IH]; intros it; [done|]. simpl trace_from.
  intros (Hc & (Hb & Hr & Hafter) & Htr) Hit [Hpop Hpops]%Forall_cons.
  rewrite Hc in *. simpl in Hb, Hr, Hafter.
  unfold REPETITIONS, PATTERN_LENGTH in *. simpl length in Hit.
  assert (c_bored c = false) as Hbored.
  { rewrite Hb. destruct (Z.eqb_spec (c_population c) p); lia. }
  assert (c_reset c = false) as Hreset by (rewrite Hr, Hbored; lia).
  rewrite Hreset in Hafter. destruct Hafter as (Hit' & Hnum' & Htimes').
  assert (c_after c = mkDetector (it + 1) p 0) as Hafter.
  { destruct (c_after c) as [it' num' times']. simpl in *.
    destruct (Z.eqb_spec (c_population c) p); [lia|]. congruence. }
  rewrite Hafter in Htr.
  destruct (IH (it + 1) Htr) as (IHr & IHb & IHbefore & IHafter); [lia | done |].
  rewrite !fmap_cons, Hreset, Hbored, Hc, Hafter, IHr, IHb, IHbefore, IHafter.
  rewrite !(seqZ_cons _ (Z.of_nat (length (c :: tr)))) by (simpl; lia).
  replace (Z.pred (Z.of_nat (length (c :: tr)))) with (Z.of_nat (length tr))
    by (simpl; lia).
  rewrite !fmap_cons. by replace (Z.succ it) with (it + 1) by lia.
Qed.

(** C5.  On a new detector, for every list of 57 boards of strictly
    increasing populations and every outcome of the random source (hence of
    the jitter), the run returns and exactly one reset executes, on the
    first call: that call leaves [iteration] at the jitter drawn from
    -2 .. 0, [num] at the population of the first board and [times] at 0;
    each of the other 56 calls does not reset, returns false, leaves [num]
    and [times] as they are and adds one to [iteration]. *)
Theorem one_reset_in_57_calls boards src :
  length boards = 57%nat → increasing (len <$> boards) = true →
  ∃ tr first jitter,
    returned (run BoredomDetector_init boards src) = Some tr ∧
    head boards = Some first ∧ -2 ≤ jitter ≤ 0 ∧
    c_reset <$> tr = true :: replicate 56 false ∧
    c_bored <$> tr = replicate 57 false ∧
    c_population <$> tr = len <$> boards ∧
    c_before <$> tr =
      BoredomDetector_init ::
      ((λ k, mkDetector k (len first) 0) <$> seqZ jitter 56) ∧
    c_after <$> tr = (λ k, mkDetector k (len first) 0) <$> seqZ jitter 57.
Proof.
  intros Hlen Hinc.
  destruct (run_total BoredomDetector_init boards src) as (tr & Hrun).
  pose proof Hrun as [Htr Hpop]%run_trace.
  assert (length tr = 57%nat) as Hlen'.
  { apply (f_equal length) in Hpop. rewrite !length_fmap in Hpop. lia. }
  destruct boards as [|first boards]; [done|].
  destruct tr as [|c tr]; [done|].
  rewrite !fmap_cons in Hpop. injection Hpop as Hfirst Hpop.
  rewrite fmap_cons, <- Hfirst, <- Hpop in Hinc.
  apply increasing_cons in Hinc as [Hpops _].
  apply (Forall_through c_population (λ b, c_population c < b)) in Hpops.
  simpl in Htr. destruct Htr as (Hc & Hstep & Htr).
  pose proof (first_call_resets c Hc Hstep) as Hreset.
  destruct Hstep as (Hb & _ & Hafter). rewrite Hreset in Hafter.
  destruct Hafter as (Hit & Hnum & Htimes).
  assert (c_after c = mkDetector (iteration (c_after c)) (c_population c) 0) as Hstate.
  { destruct (c_after c) as [it' num' times']. simpl in *. congruence. }
  rewrite Hstate in Htr.
  assert (length tr = 56%nat) as Hlen56 by (simpl in Hlen'; lia).
  destruct (quiet_states tr _ _ Htr) as (Hr' & Hb' & Hbefore' & Hafter'); [|done|].
  { unfold REPETITIONS, PATTERN_LENGTH. lia. }
  rewrite Hlen56 in Hr', Hb', Hbefore', Hafter'.
  exists (c :: tr), first, (iteration (c_after c)).
  split; [done|]. split; [done|]. split; [done|].
  assert (c_bored c = false) as Hbored.
  { rewrite Hb, Hc. simpl. unfold REPETITIONS.
    destruct (c_population c =? 0); reflexivity. }
  rewrite !fmap_cons, Hreset, Hbored, Hr', Hb', Hc, Hbefore', Hafter'.
  rewrite Hfirst, Hpop, <- Hfirst.
  split; [done|]. split; [done|]. split; [done|]. split; [done|].
  rewrite (seqZ_cons _ 57) by lia. rewrite fmap_cons. f_equal. exact Hstate.
Qed.

Lemma one_reset_in_57_calls_witness :
  (length (growing 57) = 57%nat ∧ increasing (len <$> growing 57) = true) ∧
  ∃ tr first jitter,
    returned (run BoredomDetector_init (growing 57) (constant_source 2)) = Some tr ∧
    head (growing 57) = Some first ∧ -2 ≤ jitter ≤ 0 ∧
    c_reset <$> tr = true :: replicate 56 false ∧
    c_bored <$> tr = replicate 57 false ∧
    c_population <$> tr = len <$> growing 57 ∧
    c_before <$> tr =
      BoredomDetector_init ::
      ((λ k, mkDetector k (len first) 0) <$> seqZ jitter 56) ∧
    c_after <$> tr = (λ k, mkDetector k (len first) 0) <$> seqZ jitter 57.
Proof.
  assert (length (growing 57) = 57%nat) as Hlen by (vm_compute; reflexivity).
  assert (increasing (len <$> growing 57) = true) as Hinc by (vm_compute; reflexivity).
  split; [by split|].
  exact (one_reset_in_57_calls (growing 57) (constant_source 2) Hlen Hinc).
Defined.

(** What the call records of that run are. *)
Example growing_run_states :
  (λ tr : list call, (c_after <$> take 3 tr, c_after <$> drop 56 tr))
    <$> returned (run BoredomDetector_init (growing 57) (constant_source 2))
  = Some ([mkDetector 0 1 0; mkDetector 1 1 0; mkDetector 2 1 0],
          [mkDetector 56 1 0]).
Proof. by vm_compute. Qed.

(** Once the recorded population is seen again call after call, and
    [iteration] is not too far ahead of [times], the detector gets bored
    before the periodic reset can intervene. *)
Lemma streak tr self p :
  trace_from self tr → Forall (λ c, c_population c = p) tr →
  num self = p →
  iteration self - times self ≤ REPETITIONS * PATTERN_LENGTH - REPETITIONS →
  tr ≠ [] → REPETITIONS < times self + Z.of_nat (length tr) →
  Exists (λ c, c_bored c = true) tr.
Proof.
  revert self. induction tr as [|c tr IH]; intros self; [done|]. simpl.
  intros (Hc & (Hb & Hr & Hafter) & Htr) Hpops Hnum Hit _ Hlen.
  apply Forall_cons in Hpops as [Hpop Hpops]. rewrite Hc in *.
  destruct (c_bored c) eqn:Hbored; [by left|]. right.
  rewrite Hpop, Hnum, Z.eqb_refl in *.
  unfold REPETITIONS, PATTERN_LENGTH in *.
  assert (c_reset c = false) as Hreset by lia.
  rewrite Hreset in Hafter. destruct Hafter as (Hit' & Hnum' & Htimes').
  apply (IH (c_after c)); try done; try lia.
  destruct tr; [simpl in Hlen; lia | done].
Qed.

(** C6, as amended.  For every population [p], every list of 16 boards of
    population [p] and every outcome of the random source, on a detector
    whose next call resets ([iteration >= 56], as in a new detector), or
    which already holds [num = p] with [times >= 0] and
    [iteration - times <= 42] (so that no periodic reset falls before the
    fifteenth repetition), at least one of the 16 calls returns true. *)
Theorem bored_of_constant_population self boards p src :
  length boards = 16%nat → Forall (λ b, len b = p) boards →
  REPETITIONS * PATTERN_LENGTH ≤ iteration self ∨
    (num self = p ∧ 0 ≤ times self ∧
     iteration self - times self ≤ REPETITIONS * PATTERN_LENGTH - REPETITIONS) →
  ∃ tr, returned (run self boards src) = Some tr ∧
        Exists (λ c, c_bored c = true) tr.
Proof.
  intros Hlen Hpops Hstate.
  destruct (run_total self boards src) as (tr & Hrun).
  exists tr. split; [done|].
  apply run_trace in Hrun as [Htr Hpop].
  assert (length tr = 16%nat) as Hlen'.
  { apply (f_equal length) in Hpop. rewrite !length_fmap in Hpop. lia. }
  assert (Forall (λ c, c_population c = p) tr) as Hpops'.
  { apply (Forall_through c_population (λ z, z = p)). rewrite Hpop.
    by apply (Forall_through len (λ z, z = p)). }
  clear Hpop Hpops Hlen boards.
  destruct Hstate as [Hit|(Hnum & Htimes & Hit)].
  - destruct tr as [|c tr]; [done|]. simpl in Htr.
    destruct Htr as (Hc & (Hb & Hr & Hafter) & Htr).
    apply Forall_cons in Hpops' as [Hpop Hpops'].
    destruct (c_bored c) eqn:Hbored; [by left|]. right.
    rewrite Hc in *. unfold REPETITIONS, PATTERN_LENGTH in *.
    assert (c_reset c = true) as Hreset by lia.
    rewrite Hreset in Hafter. destruct Hafter as (Hit' & Hnum' & Htimes').
    apply (streak tr (c_after c) p); try done.
    + congruence.
    + unfold REPETITIONS, PATTERN_LENGTH. lia.
    + by destruct tr.
    + unfold REPETITIONS. simpl in Hlen'. lia.
  - apply (streak tr self p); try done.
    + by destruct tr.
    + unfold REPETITIONS. lia.
Qed.

Lemma bored_of_constant_population_witness :
  (length (replicate 16 (∅ : board)) = 16%nat ∧
   Forall (λ b, len b = 0) (replicate 16 (∅ : board)) ∧
   REPETITIONS * PATTERN_LENGTH ≤ iteration BoredomDetector_init) ∧
  ∃ tr, returned (run BoredomDetector_init (replicate 16 ∅) (constant_source 0)) = Some tr ∧
        Exists (λ c, c_bored c = true) tr.
Proof.
  assert (length (replicate 16 (∅ : board)) = 16%nat) as Hlen by reflexivity.
  assert (Forall (λ b, len b = 0) (replicate 16 (∅ : board))) as Hpops
    by (vm_compute; repeat constructor).
  assert (REPETITIONS * PATTERN_LENGTH ≤ iteration BoredomDetector_init) as Hit
    by (vm_compute; discriminate).
  split; [by repeat split|].
  exact (bored_of_constant_population BoredomDetector_init (replicate 16 ∅) 0
           (constant_source 0) Hlen Hpops (or_introl Hit)).
Defined.

(** C6, as stated, fails: a new detector that has been called once on a
    board of one cell (a reset, which records the population 1) and is then
    called 16 times on the empty board sees the constant population 0 in
    these 16 calls, none of which resets and none of which returns true. *)
Lemma never_bored_of_other_population :
  ∃ first tr,
    returned (run BoredomDetector_init (row 1 :: replicate 16 ∅) (constant_source 2))
      = Some (first :: tr) ∧
    c_reset first = true ∧ length tr = 16%nat ∧
    Forall (λ c, c_population c = 0 ∧ c_reset c = false ∧ c_bored c = false) tr.
Proof.
  eexists _, _. split; [by vm_compute|]. split; [done|]. split; [done|].
  repeat constructor.
Qed.

(** * Further properties *)

(** ** The generation advance *)

(** X1.  [neighbors] yields eight different points: exactly the points other
    than [p] whose two coordinates each differ from those of [p] by at most
    one. *)
Theorem neighbors_moore p :
  length (neighbors p) = 8%nat ∧ NoDup (neighbors p) ∧
  ∀ q, q ∈ neighbors p ↔
       q ≠ p ∧ Z.abs (q.1 - p.1) ≤ 1 ∧ Z.abs (q.2 - p.2) ≤ 1.
Proof.
  split; [by destruct p|]. split; [apply neighbors_NoDup|].
  intros [a b]. destruct p as [x y]. unfold neighbors. simpl. split.
  - rewrite !elem_of_cons, elem_of_nil. intros H.
    repeat (destruct H as [H|H]; [injection H as -> ->; split; [intros [=]; lia | lia]|]).
    done.
  - intros (Hne & Ha & Hb).
    assert (a = x - 1 ∨ a = x ∨ a = x + 1) as Ha' by lia.
    assert (b = y - 1 ∨ b = y ∨ b = y + 1) as Hb' by lia.
    destruct Ha' as [-> | [-> | ->]], Hb' as [-> | [-> | ->]]; try done;
      set_unfold; repeat first [ left; f_equal; lia | right ].
Qed.

Lemma live_dom b b' p : dom b = dom b' → live b p = live b' p.
Proof.
  intros Hd. destruct (live b' p) eqn:E.
  - apply live_true. rewrite Hd. by apply live_true.
  - apply not_true_is_false. rewrite live_true, Hd, <- live_true. congruence.
Qed.

Lemma count_of_dom b b' wrap p : dom b = dom b' → count_of b wrap p = count_of b' wrap p.
Proof.
  intros Hd. rewrite !count_of_tally. apply tally_ext. intros n _.
  destruct (wrap n); simpl; [by apply live_dom | done].
Qed.

Lemma next_board_over_dom pts b b' wrap :
  dom b = dom b' → next_board_over pts b wrap = next_board_over pts b' wrap.
Proof.
  intros Hd. unfold next_board_over.
  induction pts as [|a pts IH] using rev_ind; [done|].
  rewrite !foldl_snoc, IH. unfold recalc.
  by rewrite (count_of_dom b b'), (live_dom b b').
Qed.

Lemma points_to_recalc_dom b b' :
  dom b = dom b' → points_to_recalc b = points_to_recalc b'.
Proof. intros Hd. unfold points_to_recalc. by rewrite Hd. Qed.

(** Under a policy that keeps a point where it is or drops it, the loop
    gives the board of [next_board] for any list of points that holds every
    point to recalculate. *)
Lemma next_board_over_covering wrap pts b :
  (∀ p q, wrap p = Some q → q = p) →
  (∀ p, p ∈ points_to_recalc b → p ∈ pts) →
  next_board_over pts b wrap = next_board b wrap.
Proof.
  intros Hwrap Hpts. apply map_eq. intros q.
  rewrite (lookup_next_board _ Hwrap), (lookup_next_board_over _ Hwrap).
  case_decide as Hq; [done|]. symmetry. apply (verdict_far _ Hwrap).
  intros ?. by apply Hq, Hpts.
Qed.

(** X2.  The next board depends on which cells are live, not on their
    states.  For two boards with the same keys: the loop run over the same
    points in the same order gives the same board, under any policy; and
    under a policy that keeps a point where it is or drops it (as [die]
    does), it gives the same board in whatever order each run visits its
    points, provided each visits every point to recalculate. *)
Theorem next_board_ignores_states b b' :
  dom b = dom b' →
  (∀ wrap pts, next_board_over pts b wrap = next_board_over pts b' wrap) ∧
  (∀ wrap pts pts',
     (∀ p q, wrap p = Some q → q = p) →
     (∀ p, p ∈ points_to_recalc b → p ∈ pts) →
     (∀ p, p ∈ points_to_recalc b' → p ∈ pts') →
     next_board_over pts b wrap = next_board_over pts' b' wrap).
Proof.
  intros Hd. split.
  - intros wrap pts. by apply next_board_over_dom.
  - intros wrap pts pts' Hwrap Hpts Hpts'.
    rewrite (next_board_over_covering wrap pts b Hwrap Hpts).
    rewrite (next_board_over_covering wrap pts' b' Hwrap Hpts').
    unfold next_board. rewrite (points_to_recalc_dom b b' Hd).
    by apply next_board_over_dom.
Qed.

Lemma next_board_ignores_states_witness :
  dom blinker = dom ((λ _, 2) <$> blinker) ∧
  (∀ wrap pts,
     next_board_over pts blinker wrap
     = next_board_over pts ((λ _, 2) <$> blinker) wrap) ∧
  next_board_over (elements (points_to_recalc blinker)) blinker (die 3 3)
  = next_board_over (reverse (elements (points_to_recalc ((λ _, 2) <$> blinker))))
      ((λ _, 2) <$> blinker) (die 3 3).
Proof.
  assert (dom blinker = dom ((λ _ : Z, 2) <$> blinker)) as Hd by (vm_compute; reflexivity).
  split; [exact Hd|].
  destruct (next_board_ignores_states blinker ((λ _ : Z, 2) <$> blinker) Hd)
    as [Hsame Hany].
  split; [exact Hsame|].
  apply (Hany (die 3 3)); [exact (die_fixes 3 3) | |].
  - intros p Hp. by apply elem_of_elements.
  - intros p Hp. apply elem_of_reverse. by apply elem_of_elements.
Defined.

(** Under a policy that moves points the order of the visit shows.  On a
    torus of 4 by 4 with a block across the edge, the live point (3,0) and
    the point (-1,0), which is not a key, are both given a state and stored
    at the key (3,0): the one visited last decides. *)
Example order_shows_when_points_collide :
  let torus (p : cell) := Some (p.1 `mod` 4, p.2 `mod` 4) in
  let b := dict [((3, 0), 0); ((0, 0), 0); ((0, 1), 0); ((3, 1), 0)] in
  (3, 0) ∈ points_to_recalc b ∧ (-1, 0) ∈ points_to_recalc b ∧
  next_board_over [(3, 0); (-1, 0)] b torus !! (3, 0) = Some 1 ∧
  next_board_over [(-1, 0); (3, 0)] b torus !! (3, 0) = Some 0.
Proof.
  cbv zeta. split; [|split].
  - apply (bool_decide_unpack _). by vm_compute.
  - apply (bool_decide_unpack _). by vm_compute.
  - by vm_compute.
Qed.

Lemma verdict_die_off W H b p : ¬ on_screen W H p → verdict (die W H) b p = None.
Proof. intros Hp. unfold verdict. by apply die_None in Hp as ->. Qed.

Lemma verdict_die_on W H b p :
  on_screen W H p →
  verdict (die W H) b p = new_state (count_of b (die W H) p) (live b p).
Proof.
  intros Hp. unfold verdict.
  destruct (die W H p) eqn:E; [done|]. by apply die_None in E.
Qed.

(** X3.  Under [die] the keys of the input board that are off the screen
    count for nothing: the successor is that of the board without them. *)
Theorem next_board_die_off_screen_dead W H b :
  next_board b (die W H) =
    next_board (filter (λ kv : cell * Z, on_screen W H kv.1) b) (die W H).
Proof.
  apply map_eq. intros p. rewrite !(lookup_next_board _ (die_fixes W H)).
  assert (∀ q, on_screen W H q →
    live (filter (λ kv : cell * Z, on_screen W H kv.1) b) q = live b q) as Hlive.
  { intros q Hq. unfold live. apply bool_decide_ext. unfold is_Some.
    split; intros [s Hs]; exists s.
    - by apply map_lookup_filter_Some in Hs as [? _].
    - by apply map_lookup_filter_Some. }
  destruct (decide (on_screen W H p)) as [Hp|Hp].
  - rewrite !verdict_die_on by done. rewrite Hlive by done. f_equal.
    rewrite !count_of_tally. apply tally_ext. intros n _.
    destruct (die W H n) as [q|] eqn:Hn; [|done]. simpl.
    apply die_Some in Hn as [-> Hn]. symmetry. by apply Hlive.
  - by rewrite !verdict_die_off.
Qed.

(** X4.  When every live cell is on the screen, a generation under [die] is
    the generation of the unbounded grid with the cells off the screen
    removed. *)
Theorem next_board_die_is_unclipped_on_screen W H b :
  within W H b →
  next_board b (die W H) =
    filter (λ kv : cell * Z, on_screen W H kv.1) (next_board b unclipped).
Proof.
  intros Hb. apply map_eq. intros p.
  rewrite (lookup_next_board _ (die_fixes W H)), map_lookup_filter.
  rewrite lookup_next_board_unclipped.
  destruct (decide (on_screen W H p)) as [Hp|Hp].
  - rewrite verdict_die_on by done.
    assert (count_of b (die W H) p = count_of b unclipped p) as ->.
    { rewrite !count_of_tally. apply tally_ext. intros n _.
      destruct (die W H n) as [n'|] eqn:Hn; simpl.
      - by apply die_fixes in Hn as ->.
      - symmetry. apply not_true_is_false. rewrite live_true. intros Hl.
        apply die_None in Hn. apply Hn. by apply Hb. }
    destruct (new_state _ _); simpl; [|done].
    by rewrite option_guard_True.
  - rewrite verdict_die_off by done.
    destruct (new_state _ _); simpl; [|done].
    by rewrite option_guard_False.
Qed.

(** X5.  On a screen without columns or without rows the successor of
    every board is empty. *)
Theorem next_board_die_no_screen W H b :
  W ≤ 0 ∨ H ≤ 0 → next_board b (die W H) = ∅.
Proof.
  intros HWH. apply map_eq. intros p.
  rewrite (lookup_next_board _ (die_fixes W H)), lookup_empty.
  apply verdict_die_off. unfold on_screen. lia.
Qed.

(** X6.  Under [die] the loop gives the same board in whatever order it
    visits the points, with repeats and with points added, as long as it
    visits every point of [points_to_recalc]. *)
Theorem next_board_die_any_order W H pts b :
  (∀ p, p ∈ points_to_recalc b → p ∈ pts) →
  next_board_over pts b (die W H) = next_board b (die W H).
Proof.
  intros Hpts. apply map_eq. intros q.
  rewrite (lookup_next_board _ (die_fixes W H)).
  rewrite (lookup_next_board_over _ (die_fixes W H)).
  case_decide as Hq; [done|]. symmetry. apply (verdict_far _ (die_fixes W H)).
  intros ?. by apply Hq, Hpts.
Qed.

(** X7.  On the unbounded grid any number of generations commutes with a
    translation of the board. *)
Theorem generations_translate n dx dy b :
  generations n unclipped (translate dx dy b) =
    translate dx dy (generations n unclipped b).
Proof.
  unfold generations. induction n as [|n IH]; [done|].
  simpl. by rewrite IH, next_board_translate.
Qed.

(** X8.  Under a policy that keeps a point where it is or drops it, a cell
    of the next board was live or is a neighbour of a cell that was. *)
Theorem next_board_local wrap b p :
  (∀ p q, wrap p = Some q → q = p) →
  p ∈ dom (next_board b wrap) →
  p ∈ dom b ∨ ∃ q, q ∈ dom b ∧ p ∈ neighbors q.
Proof.
  intros Hwrap Hp. apply elem_of_points_to_recalc.
  destruct (decide (p ∈ points_to_recalc b)) as [|Hfar]; [done|].
  apply elem_of_dom in Hp as [s Hs].
  rewrite (lookup_next_board _ Hwrap) in Hs.
  by rewrite (verdict_far _ Hwrap) in Hs.
Qed.

Lemma next_board_over_size pts b wrap :
  (size (next_board_over pts b wrap) ≤ length pts)%nat.
Proof.
  unfold next_board_over.
  induction pts as [|a pts IH] using rev_ind.
  - cbn [foldl]. by rewrite map_size_empty.
  - rewrite foldl_snoc, length_app. simpl. unfold recalc at 1.
    destruct (new_state _ _); [|lia]. destruct (wrap a); [|lia].
    rewrite map_size_insert. destruct (_ !! _); simpl; lia.
Qed.

Lemma size_list_to_set_le (l : list cell) :
  (size (list_to_set l : gset cell) ≤ length l)%nat.
Proof.
  induction l as [|a l IH].
  - by vm_compute.
  - rewrite list_to_set_cons, size_union_alt, size_singleton. simpl length.
    pose proof (subseteq_size (list_to_set l ∖ {[a]}) (list_to_set l : gset cell)) as Hle.
    assert (list_to_set l ∖ {[a]} ⊆ (list_to_set l : gset cell)) as Hsub
      by (by intros x [? _]%elem_of_difference).
    specialize (Hle Hsub). lia.
Qed.

Lemma length_join_neighbors (l : list cell) :
  length (mjoin (neighbors <$> l)) = (8 * length l)%nat.
Proof.
  induction l as [|[x y] l IH]; [done|].
  csimpl. rewrite IH. lia.
Qed.

Lemma points_to_recalc_size b :
  (size (points_to_recalc b) ≤ 9 * size b)%nat.
Proof.
  unfold points_to_recalc. rewrite size_union_alt.
  set (nbrs := list_to_set (mjoin (neighbors <$> elements (dom b))) : gset cell).
  assert (size (nbrs ∖ dom b) ≤ size nbrs)%nat by (apply subseteq_size; by intros x [? _]%elem_of_difference).
  pose proof (size_list_to_set_le (mjoin (neighbors <$> elements (dom b)))) as Hn.
  fold nbrs in Hn. rewrite length_join_neighbors in Hn.
  assert (length (elements (dom b)) = size b) as Hlen by (rewrite <- size_dom; done).
  rewrite size_dom. lia.
Qed.

(** X9.  The loop recalculates at most nine points for each live cell, and
    the next board has at most as many cells as points were recalculated,
    under any policy. *)
Theorem next_board_size b wrap :
  (size (points_to_recalc b) ≤ 9 * size b)%nat ∧
  (size (next_board b wrap) ≤ size (points_to_recalc b))%nat.
Proof.
  split; [apply points_to_recalc_size|].
  unfold next_board.
  pose proof (next_board_over_size (elements (points_to_recalc b)) b wrap) as Hle.
  assert (length (elements (points_to_recalc b)) = size (points_to_recalc b))
    as Hlen by done.
  lia.
Qed.

Lemma next_board_die_is_unclipped_on_screen_witness :
  within 3 3 edge_column ∧
  next_board edge_column (die 3 3) =
    filter (λ kv : cell * Z, on_screen 3 3 kv.1) (next_board edge_column unclipped).
Proof.
  assert (within 3 3 edge_column) as Hb
    by (apply withinb_within; vm_compute; reflexivity).
  split; [exact Hb|].
  exact (next_board_die_is_unclipped_on_screen 3 3 edge_column Hb).
Defined.

Lemma next_board_die_no_screen_witness :
  (0 ≤ 0 ∨ 24 ≤ 0) ∧ next_board blinker (die 0 24) = ∅.
Proof.
  assert (0 ≤ 0 ∨ 24 ≤ 0) as HWH by (left; lia).
  split; [exact HWH|]. exact (next_board_die_no_screen 0 24 blinker HWH).
Defined.

Lemma next_board_die_any_order_witness :
  (∀ p, p ∈ points_to_recalc blinker →
        p ∈ (7, 7) :: reverse (elements (points_to_recalc blinker)) ++ [(1, 1)]) ∧
  next_board_over ((7, 7) :: reverse (elements (points_to_recalc blinker)) ++ [(1, 1)])
    blinker (die 3 3)
  = next_board blinker (die 3 3).
Proof.
  assert (∀ p, p ∈ points_to_recalc blinker →
    p ∈ (7, 7) :: reverse (elements (points_to_recalc blinker)) ++ [(1, 1)]) as Hpts.
  { intros p Hp. right. apply elem_of_app. left.
    apply elem_of_reverse. by apply elem_of_elements. }
  split; [exact Hpts|]. exact (next_board_die_any_order 3 3 _ blinker Hpts).
Defined.

Lemma next_board_local_witness :
  ((∀ p q, die 3 3 p = Some q → q = p) ∧
   (0, 1) ∈ dom (next_board blinker (die 3 3))) ∧
  ((0, 1) ∈ dom blinker ∨ ∃ q, q ∈ dom blinker ∧ (0, 1) ∈ neighbors q).
Proof.
  assert ((0, 1) ∈ dom (next_board blinker (die 3 3))) as Hp
    by (apply (bool_decide_unpack _); vm_compute; exact I).
  split; [split; [exact (die_fixes 3 3) | exact Hp]|].
  exact (next_board_local (die 3 3) blinker (0, 1) (die_fixes 3 3) Hp).
Defined.

(** ** The random board *)

Lemma items_of_rest n max_x max_y src items rest :
  items_of n max_x max_y src = Returns items rest →
  ∀ i, rest i = src (2 * n + i)%nat.
Proof.
  revert src items rest. induction n as [|n IH]; intros src items rest; simpl.
  - by intros [= _ <-].
  - intros (x & s1 & Hx & (y & s2 & Hy & (l & s3 & Hl & [= _ <-])%bind_Returns)%bind_Returns)%bind_Returns.
    intros i. rewrite (IH _ _ _ Hl).
    unfold randint in Hx, Hy.
    destruct (0 <=? max_x); [|done]. injection Hx as _ <-.
    destruct (0 <=? max_y); [|done]. injection Hy as _ <-.
    f_equal. lia.
Qed.

Lemma items_of_raises n max_x max_y src :
  (0 < n)%nat → max_x < 0 ∨ max_y < 0 →
  items_of n max_x max_y src = Raises ValueError.
Proof.
  intros Hn Hmax. destruct n as [|n]; [lia|]. simpl.
  unfold mbind, M_bind, randint.
  destruct (Z.leb_spec 0 max_x); [|done].
  destruct (Z.leb_spec 0 max_y); [lia|done].
Qed.

(** X10.  The outcome of [random_board] on integers, with [n] the number
    of draws [floor(max_x * max_y / load_factor)], when that number lies in
    [-2^31 .. 2^31 - 1] and so fits the C long that [xrange] asks for on
    every platform: it raises [ZeroDivisionError] exactly when
    [load_factor] is 0; it raises [ValueError] exactly when there is a point
    to draw and [max_x] or [max_y] is negative; otherwise it returns, having
    consumed [2 * n] outcomes of the random source, and the board is empty
    when [n] is 0. *)
Theorem random_board_outcome max_x max_y load_factor src :
  - 2 ^ 31 ≤ max_x * max_y / load_factor < 2 ^ 31 →
  let n := Z.to_nat (max_x * max_y / load_factor) in
  match random_board max_x max_y load_factor src with
  | Raises ZeroDivisionError => load_factor = 0
  | Raises ValueError =>
      load_factor ≠ 0 ∧ (0 < n)%nat ∧ (max_x < 0 ∨ max_y < 0)
  | Returns b rest =>
      load_factor ≠ 0 ∧ (n = 0%nat ∨ (0 ≤ max_x ∧ 0 ≤ max_y)) ∧
      (n = 0%nat → b = ∅) ∧ ∀ i, rest i = src (2 * n + i)%nat
  end.
Proof.
  intros _ n. unfold random_board. destruct (Z.eqb_spec load_factor 0) as [|Hlf]; [done|].
  fold n. unfold mbind, M_bind.
  destruct (items_of n max_x max_y src) as [items rest|e] eqn:Hitems.
  - split; [done|]. split; [|split].
    + destruct n as [|n'] eqn:En; [by left|right].
      destruct (decide (0 ≤ max_x ∧ 0 ≤ max_y)) as [|Hneg]; [done|].
      rewrite items_of_raises in Hitems by lia. done.
    + intros Hn. rewrite Hn in Hitems. by injection Hitems as <- _.
    + by eapply items_of_rest.
  - destruct (decide (0 ≤ max_x ∧ 0 ≤ max_y)) as [[Hx Hy]|Hneg].
    + destruct (items_of_total n max_x max_y src Hx Hy) as (? & ? & Htot). congruence.
    + destruct n as [|n'] eqn:En; [done|].
      rewrite items_of_raises in Hitems by lia. injection Hitems as <-.
      repeat split; try done; lia.
Qed.

Lemma random_board_outcome_witness :
  (- 2 ^ 31 ≤ (-3) * (-4) / 5 < 2 ^ 31) ∧
  match random_board (-3) (-4) 5 (constant_source 1) with
  | Raises ZeroDivisionError => 5 = 0
  | Raises ValueError =>
      5 ≠ 0 ∧ (0 < Z.to_nat ((-3) * (-4) / 5))%nat ∧ (-3 < 0 ∨ -4 < 0)
  | Returns b rest =>
      5 ≠ 0 ∧ (Z.to_nat ((-3) * (-4) / 5) = 0%nat ∨ (0 ≤ -3 ∧ 0 ≤ -4)) ∧
      (Z.to_nat ((-3) * (-4) / 5) = 0%nat → b = ∅) ∧
      ∀ i, rest i = constant_source 1 (2 * Z.to_nat ((-3) * (-4) / 5) + i)%nat
  end.
Proof.
  assert (- 2 ^ 31 ≤ (-3) * (-4) / 5 < 2 ^ 31) as Hn
    by (split; [by vm_compute | by vm_compute]).
  split; [exact Hn|].
  exact (random_board_outcome (-3) (-4) 5 (constant_source 1) Hn).
Defined.

(** The three outcomes. *)
Example random_board_outcomes :
  random_board 3 4 0 (constant_source 1) = Raises ZeroDivisionError ∧
  random_board (-3) (-4) 5 (constant_source 1) = Raises ValueError ∧
  returned (random_board (-3) 4 5 (constant_source 1)) = Some ∅ ∧
  returned (random_board 3 4 5 (constant_source 1)) = Some {[ (1, 1) := 0 ]}.
Proof. by vm_compute. Qed.





(** ** The detector over long runs *)

Lemma len_nonneg b : 0 ≤ len b.
Proof. unfold len. lia. Qed.

Lemma stepped_settled c :
  stepped c → 0 ≤ c_population c →
  -2 ≤ iteration (c_before c) → 0 ≤ times (c_before c) → 0 ≤ num (c_before c) →
  settled (c_after c).
Proof.
  intros (Hb & Hr & Hafter) Hpop Hit Htimes Hnum. unfold settled.
  unfold REPETITIONS, PATTERN_LENGTH in *.
  destruct (c_reset c).
  - lia.
  - destruct Hafter as (-> & -> & ->).
    destruct (Z.eqb_spec (c_population c) (num (c_before c))); lia.
Qed.

Lemma trace_settled self tr :
  trace_from self tr → Forall (λ c, 0 ≤ c_population c) tr →
  -2 ≤ iteration self → 0 ≤ times self → 0 ≤ num self →
  Forall (λ c, settled (c_after c)) tr.
Proof.
  revert self. induction tr as [|c tr IH]; intros self; simpl; [done|].
  intros (Hc & Hstep & Htr) [Hpop Hpops]%Forall_cons Hit Htimes Hnum.
  rewrite <- Hc in *.
  pose proof (stepped_settled c Hstep Hpop Hit Htimes Hnum) as Hs.
  constructor; [done|]. destruct Hs as (? & ? & ?).
  apply (IH (c_after c)); try done; lia.
Qed.

Lemma run_populations self boards src tr :
  returned (run self boards src) = Some tr →
  Forall (λ c, 0 ≤ c_population c) tr.
Proof.
  intros [_ Hpop]%run_trace.
  apply (Forall_through c_population (λ z, 0 ≤ z)). rewrite Hpop.
  apply (Forall_through len (λ z, 0 ≤ z)).
  apply Forall_forall. intros b _. apply len_nonneg.
Qed.

(** X12.  After every call on a new detector, [-2 <= iteration <= 56],
    [0 <= times <= 14] and [num >= 0]. *)
Theorem detector_stays_settled boards src :
  ∃ tr, returned (run BoredomDetector_init boards src) = Some tr ∧
        Forall (λ c, settled (c_after c)) tr.
Proof.
  destruct (run_total BoredomDetector_init boards src) as (tr & Hrun).
  exists tr. split; [done|].
  pose proof (run_populations _ _ _ _ Hrun) as Hpops.
  apply run_trace in Hrun as [Htr _].
  by apply (trace_settled BoredomDetector_init).
Qed.

Lemma quiet_length self tr :
  trace_from self tr → Forall (λ c, c_reset c = false) tr → tr ≠ [] →
  iteration self + Z.of_nat (length tr) ≤ REPETITIONS * PATTERN_LENGTH.
Proof.
  revert self. induction tr as [|c tr IH]; intros self; [done|]. simpl.
  intros (Hc & (Hb & Hr & Hafter) & Htr) [Hreset Hquiet]%Forall_cons _.
  rewrite Hreset in Hafter, Hr. destruct Hafter as (Hit & _ & _).
  rewrite Hc in *. unfold REPETITIONS, PATTERN_LENGTH in *.
  destruct tr as [|c' tr]; [simpl; lia|].
  specialize (IH (c_after c) Htr Hquiet ltac:(done)). simpl length in *. lia.
Qed.

Lemma final_settled tr :
  Forall (λ c, settled (c_after c)) tr →
  -2 ≤ iteration (final BoredomDetector_init tr).
Proof.
  destruct tr as [|c tr _] using rev_ind; [done|].
  rewrite final_snoc. intros [_ Hc]%Forall_app.
  apply Forall_cons in Hc as [(? & _) _]. lia.
Qed.

Lemma reset_in_window pre window :
  trace_from BoredomDetector_init (pre ++ window) →
  Forall (λ c, 0 ≤ c_population c) (pre ++ window) →
  length window = 59%nat →
  Exists (λ c, c_reset c = true) window.
Proof.
  intros Htr Hpops Hlen.
  pose proof (trace_settled _ _ Htr Hpops) as Hsettled.
  apply trace_from_app in Htr as (Hpre & Hwindow).
  apply Forall_app in Hsettled as [Hsettled _]; [|done..].
  apply final_settled in Hsettled.
  destruct (decide (Exists (λ c, c_reset c = true) window)) as [|Hquiet]; [done|].
  exfalso. apply not_Exists_Forall in Hquiet; [|apply _].
  assert (Forall (λ c, c_reset c = false) window) as Hquiet'.
  { eapply Forall_impl; [exact Hquiet|]. simpl. intros c Hc.
    by apply not_true_is_false. }
  pose proof (quiet_length _ _ Hwindow Hquiet') as Hbound.
  unfold REPETITIONS, PATTERN_LENGTH in Hbound.
  destruct window; [done|]. specialize (Hbound ltac:(done)). lia.
Qed.

(** X13.  In a run on a new detector, any 59 calls in a row (those on the
    boards [window], after the calls on any boards [before]) include a
    reset, whatever the populations and the jitter. *)
Theorem reset_every_59_calls before window src :
  length window = 59%nat →
  ∃ tr_before tr_window,
    returned (run BoredomDetector_init (before ++ window) src)
      = Some (tr_before ++ tr_window) ∧
    length tr_before = length before ∧ length tr_window = 59%nat ∧
    Exists (λ c, c_reset c = true) tr_window.
Proof.
  intros Hlen.
  destruct (run_total BoredomDetector_init (before ++ window) src) as (tr & Hrun).
  pose proof (run_populations _ _ _ _ Hrun) as Hpops.
  pose proof Hrun as [Htr Hpop]%run_trace.
  assert (length tr = (length before + 59)%nat) as Hlen'.
  { apply (f_equal length) in Hpop.
    rewrite !length_fmap, length_app in Hpop. lia. }
  exists (take (length before) tr), (drop (length before) tr).
  rewrite take_drop. split; [done|].
  split; [rewrite length_take; lia|]. split; [rewrite length_drop; lia|].
  apply (reset_in_window (take (length before) tr)).
  - by rewrite take_drop.
  - by rewrite take_drop.
  - rewrite length_drop. lia.
Qed.

Lemma reset_every_59_calls_witness :
  length (growing 59) = 59%nat ∧
  ∃ tr_before tr_window,
    returned (run BoredomDetector_init (replicate 5 blinker ++ growing 59)
                (constant_source 0))
      = Some (tr_before ++ tr_window) ∧
    length tr_before = length (replicate 5 blinker) ∧
    length tr_window = 59%nat ∧
    Exists (λ c, c_reset c = true) tr_window.
Proof.
  assert (length (growing 59) = 59%nat) as Hlen by (vm_compute; reflexivity).
  split; [exact Hlen|].
  exact (reset_every_59_calls (replicate 5 blinker) (growing 59) (constant_source 0) Hlen).
Defined.

(** The bound is reached: 58 calls in a row without a reset. *)
Example quiet_for_58_calls :
  (λ tr : list call, c_reset <$> tr) <$> returned (run BoredomDetector_init (growing 59) (constant_source 0))
  = Some (true :: replicate 58 false).
Proof. by vm_compute. Qed.

Lemma bored_at_shift m n :
  0 < m → bored_at <$> seqZ (m + 15) n = bored_at <$> seqZ m n.
Proof.
  intros Hm. rewrite <- (Z.add_comm 15), <- (fmap_add_seqZ 15), <- list_fmap_compose.
  apply list_fmap_ext. intros i k [Hk _]%lookup_seqZ. simpl.
  unfold bored_at. rewrite <- (Z.add_mod_idemp_l 15), Z.mod_same by lia.
  simpl. f_equal. lia.
Qed.

Lemma constant_run tr self p :
  trace_from self tr → Forall (λ c, c_population c = p) tr →
  num self = p → 0 ≤ times self ≤ REPETITIONS →
  iteration self - times self ≤ REPETITIONS * PATTERN_LENGTH - REPETITIONS →
  c_bored <$> tr = bored_at <$> seqZ (times self + 1) (Z.of_nat (length tr)).
Proof.
  revert self. induction tr as [|c tr IH]; intros self; [done|]. simpl trace_from.
  intros (Hc & (Hb & Hr & Hafter) & Htr) [Hpop Hpops]%Forall_cons Hnum Htimes Hit.
  rewrite Hc, Hpop, Hnum, Z.eqb_refl in *.
  unfold REPETITIONS, PATTERN_LENGTH in *.
  rewrite seqZ_cons by (simpl; lia). rewrite !fmap_cons.
  replace (Z.pred (Z.of_nat (length (c :: tr)))) with (Z.of_nat (length tr))
    by (simpl; lia).
  assert (c_bored c = bored_at (times self + 1)) as Hbored.
  { rewrite Hb. destruct (decide (times self = 14)) as [Ht|Ht].
    - by rewrite Ht.
    - unfold bored_at. rewrite Z.mod_small by lia. lia. }
  f_equal; [done|].
  destruct (c_bored c) eqn:E.
  - assert (times self = 14) as Ht by lia.
    assert (c_reset c = true) as Hreset by lia.
    rewrite Hreset in Hafter. destruct Hafter as (Hit' & Hnum' & Htimes').
    rewrite (IH (c_after c)); try done; try lia.
    rewrite Htimes', Ht. by rewrite <- (bored_at_shift (0 + 1)) by lia.
  - assert (c_reset c = false) as Hreset by lia.
    rewrite Hreset in Hafter. destruct Hafter as (Hit' & Hnum' & Htimes').
    rewrite (IH (c_after c)); try done; try lia.
    by rewrite Htimes'.
Qed.

(** X14.  On boards of one constant population a new detector returns true
    on exactly the calls 16, 31, 46, ... (index 15, 30, 45, ... from 0),
    whatever the jitter. *)
Theorem bored_every_15_calls boards p src :
  Forall (λ b, len b = p) boards →
  ∃ tr, returned (run BoredomDetector_init boards src) = Some tr ∧
        c_bored <$> tr = bored_at <$> seqZ 0 (Z.of_nat (length boards)).
Proof.
  intros Hpops.
  destruct (run_total BoredomDetector_init boards src) as (tr & Hrun).
  exists tr. split; [done|].
  apply run_trace in Hrun as [Htr Hpop].
  assert (length tr = length boards) as Hlen.
  { apply (f_equal length) in Hpop. by rewrite !length_fmap in Hpop. }
  assert (Forall (λ c, c_population c = p) tr) as Hpops'.
  { apply (Forall_through c_population (λ z, z = p)). rewrite Hpop.
    by apply (Forall_through len (λ z, z = p)). }
  rewrite <- Hlen. clear Hpop Hpops Hlen boards.
  destruct tr as [|c tr]; [done|]. simpl in Htr.
  destruct Htr as (Hc & Hstep & Htr).
  apply Forall_cons in Hpops' as [Hpop Hpops'].
  pose proof (first_call_resets c Hc Hstep) as Hreset.
  destruct Hstep as (Hb & _ & Hafter). rewrite Hreset in Hafter.
  destruct Hafter as (Hit & Hnum & Htimes).
  rewrite seqZ_cons by (simpl; lia). rewrite !fmap_cons.
  replace (Z.pred (Z.of_nat (length (c :: tr)))) with (Z.of_nat (length tr))
    by (simpl; lia).
  f_equal.
  - rewrite Hb, Hc. simpl. unfold REPETITIONS.
    destruct (c_population c =? 0); reflexivity.
  - rewrite (constant_run tr (c_after c) p); try done.
    + by rewrite Htimes.
    + congruence.
    + unfold REPETITIONS. lia.
    + unfold REPETITIONS, PATTERN_LENGTH. lia.
Qed.

Lemma bored_every_15_calls_witness :
  Forall (λ b, len b = 3) (replicate 40 blinker) ∧
  ∃ tr, returned (run BoredomDetector_init (replicate 40 blinker) (constant_source 1)) = Some tr ∧
        c_bored <$> tr = bored_at <$> seqZ 0 (Z.of_nat (length (replicate 40 blinker))).
Proof.
  assert (Forall (λ b, len b = 3) (replicate 40 blinker)) as Hpops
    by (apply Forall_replicate; vm_compute; reflexivity).
  split; [exact Hpops|].
  exact (bored_every_15_calls (replicate 40 blinker) 3 (constant_source 1) Hpops).
Defined.

Example bored_at_calls :
  filter (λ i, bored_at i = true) (seqZ 0 50) = [15; 30; 45].
Proof. by vm_compute. Qed.

Lemma growing_run tr self :
  trace_from self tr → times self = 0 →
  Forall (λ c, num self < c_population c) tr →
  increasing (c_population <$> tr) = true →
  Forall (λ c, c_bored c = false) tr.
Proof.
  revert self. induction tr as [|c tr IH]; intros self; [done|]. simpl trace_from.
  intros (Hc & (Hb & Hr & Hafter) & Htr) Htimes [Hpop Hpops]%Forall_cons Hinc.
  rewrite fmap_cons in Hinc. apply increasing_cons in Hinc as [Hlater Hinc].
  rewrite Hc in *. unfold REPETITIONS in *.
  assert (c_bored c = false) as Hbored.
  { rewrite Hb. destruct (Z.eqb_spec (c_population c) (num self)); lia. }
  constructor; [done|]. apply (IH (c_after c)); try done.
  - destruct (c_reset c); [lia|]. destruct Hafter as (_ & _ & ->).
    destruct (Z.eqb_spec (c_population c) (num self)); lia.
  - destruct (c_reset c).
    + destruct Hafter as (_ & -> & _).
      by apply (Forall_through c_population (λ z, c_population c < z)).
    + destruct Hafter as (_ & -> & _). done.
Qed.

(** X15.  On boards of strictly increasing populations a new detector
    never returns true, however long the run. *)
Theorem never_bored_of_growth boards src :
  increasing (len <$> boards) = true →
  ∃ tr, returned (run BoredomDetector_init boards src) = Some tr ∧
        Forall (λ c, c_bored c = false) tr.
Proof.
  intros Hinc.
  destruct (run_total BoredomDetector_init boards src) as (tr & Hrun).
  exists tr. split; [done|].
  apply run_trace in Hrun as [Htr Hpop]. rewrite <- Hpop in Hinc.
  clear Hpop boards.
  destruct tr as [|c tr]; [done|]. simpl in Htr.
  destruct Htr as (Hc & Hstep & Htr).
  pose proof (first_call_resets c Hc Hstep) as Hreset.
  destruct Hstep as (Hb & _ & Hafter). rewrite Hreset in Hafter.
  destruct Hafter as (Hit & Hnum & Htimes).
  rewrite fmap_cons in Hinc. apply increasing_cons in Hinc as [Hlater Hinc].
  constructor.
  - rewrite Hb, Hc. simpl. unfold REPETITIONS.
    destruct (c_population c =? 0); reflexivity.
  - apply (growing_run tr (c_after c)); try done.
    rewrite Hnum. by apply (Forall_through c_population (λ z, c_population c < z)).
Qed.

Lemma never_bored_of_growth_witness :
  increasing (len <$> growing 200) = true ∧
  ∃ tr, returned (run BoredomDetector_init (growing 200) (constant_source 1)) = Some tr ∧
        Forall (λ c, c_bored c = false) tr.
Proof.
  assert (increasing (len <$> growing 200) = true) as Hinc by (vm_compute; reflexivity).
  split; [exact Hinc|].
  exact (never_bored_of_growth (growing 200) (constant_source 1) Hinc).
Defined.

(** ** Drawing *)

Lemma cell_strings_length t : length (cell_strings t) = 3%nat.
Proof.
  unfold cell_strings.
  destruct (16 <=? _); [done|]. by destruct (8 <=? _).
Qed.

Lemma subscript_None {A} (cells : list A) s :
  subscript cells s = None ↔ ¬ (- Z.of_nat (length cells) ≤ s < Z.of_nat (length cells)).
Proof.
  unfold subscript. destruct (Z.leb_spec 0 s).
  - rewrite lookup_ge_None. lia.
  - destruct (Z.leb_spec 0 (Z.of_nat (length cells) + s)).
    + rewrite lookup_ge_None. lia.
    + split; [lia | done].
Qed.

Lemma subscript_natural {A} (cells : list A) s :
  0 ≤ s → subscript cells s = cells !! Z.to_nat s.
Proof. intros Hs. unfold subscript. by destruct (Z.leb_spec 0 s); [|lia]. Qed.

Lemma emitted_range nb p s : emitted nb → nb !! p = Some s → 0 ≤ s < 3.
Proof.
  intros Hnb Hp. destruct Hnb as [max_x max_y load_factor src b Hb | pts b wrap].
  - apply returned_Some in Hb as (rest & Hb).
    apply random_board_Returns in Hb as (items & -> & _ & Hall).
    apply dict_lookup_Some in Hp. rewrite Forall_forall in Hall.
    destruct (Hall _ Hp) as [_ Hs]. simpl in Hs. lia.
  - apply next_board_over_range in Hp. unfold Survived, Born, Stable in Hp. lia.
Qed.

(** The loop of [draw] over a list of items. *)
Lemma draw_items_Some (cells : list string) (l : list (cell * Z)) out :
  mapM (λ kv : cell * Z, glyph ← subscript cells kv.2; Some (kv.1, glyph)) l = Some out →
  out.*1 = l.*1 ∧
  ∀ p g, (p, g) ∈ out ↔ ∃ s, (p, s) ∈ l ∧ subscript cells s = Some g.
Proof.
  revert out. induction l as [|[p0 s0] l IH]; intros out; csimpl.
  - intros [= <-]. split; [done|]. intros p g. split.
    + by intros ?%elem_of_nil.
    + by intros (s & ?%elem_of_nil & _).
  - destruct (subscript cells s0) as [g0|] eqn:Hg0; csimpl; [|done].
    destruct (mapM _ l) as [out'|] eqn:Hout'; csimpl; [|done].
    intros [= <-]. destruct (IH out' eq_refl) as [Hfst Hin].
    split; [csimpl; by rewrite Hfst|].
    intros p g. rewrite elem_of_cons, Hin. split.
    + intros [[= -> ->]|(s & Hs & Hg)].
      * exists s0. split; [by left | done].
      * exists s. split; [by right | done].
    + intros (s & [[= -> ->]|Hs]%elem_of_cons & Hg).
      * left. congruence.
      * right. by exists s.
Qed.

Lemma draw_items_None (cells : list string) (l : list (cell * Z)) :
  mapM (λ kv : cell * Z, glyph ← subscript cells kv.2; Some (kv.1, glyph)) l = None ↔
  ∃ p s, (p, s) ∈ l ∧ subscript cells s = None.
Proof.
  induction l as [|[p0 s0] l IH]; csimpl.
  - split; [done|]. by intros (p & s & ?%elem_of_nil & _).
  - destruct (subscript cells s0) as [g0|] eqn:Hg0; csimpl.
    + destruct (mapM _ l) as [out'|] eqn:Hout'; csimpl.
      * split; [done|]. intros (p & s & [[= -> ->]|Hs]%elem_of_cons & Hg); [congruence|].
        assert (Some out' = None) as Hn by (apply IH; by exists p, s).
        done.
      * split; [|done]. intros _.
        destruct IH as [IH _]. destruct (IH eq_refl) as (p & s & Hs & Hg).
        exists p, s. split; [by right | done].
    + split; [|done]. intros _. exists p0, s0. split; [by left | done].
Qed.

(** X16.  [draw] raises [IndexError] exactly when the board holds a state
    [s] outside [-len(cells) <= s < len(cells)]. *)
Theorem draw_raises b t cells :
  draw b t cells = None ↔
  ∃ p s, b !! p = Some s ∧
         ¬ (- Z.of_nat (length cells) ≤ s < Z.of_nat (length cells)).
Proof.
  unfold draw. rewrite draw_items_None.
  split; intros (p & s & Hs & Hg); exists p, s.
  - apply elem_of_map_to_list in Hs. by apply subscript_None in Hg.
  - rewrite elem_of_map_to_list. by apply subscript_None in Hg.
Qed.

Lemma draw_total b t cells :
  (∀ p s, b !! p = Some s → 0 ≤ s < Z.of_nat (length cells)) →
  ∃ out, draw b t cells = Some out ∧ NoDup out.*1 ∧
    (∀ p, p ∈ out.*1 ↔ p ∈ dom b) ∧
    ∀ p g, (p, g) ∈ out ↔ ∃ s, b !! p = Some s ∧ cells !! Z.to_nat s = Some g.
Proof.
  intros Hb. destruct (draw b t cells) as [out|] eqn:Hout.
  - exists out. split; [done|]. unfold draw in Hout.
    apply draw_items_Some in Hout as [Hfst Hin]. split; [|split].
    + rewrite Hfst. apply NoDup_fst_map_to_list.
    + intros p. rewrite Hfst, elem_of_dom. split.
      * intros ([p' s] & -> & Hs%elem_of_map_to_list)%list_elem_of_fmap. by exists s.
      * intros [s Hs]. apply list_elem_of_fmap. exists (p, s).
        by rewrite elem_of_map_to_list.
    + intros p g. rewrite Hin. split; intros (s & Hs & Hg); exists s.
      * apply elem_of_map_to_list in Hs. split; [done|].
        rewrite <- subscript_natural; [done|]. apply Hb in Hs. lia.
      * rewrite elem_of_map_to_list. split; [done|].
        rewrite subscript_natural; [done|]. apply Hb in Hs. lia.
  - unfold draw in Hout.
    apply draw_items_None in Hout as (p & s & Hs%elem_of_map_to_list & Hg).
    apply subscript_None in Hg. apply Hb in Hs. lia.
Qed.

(** X17.  With the table of [cell_strings], on any terminal, [draw] does
    not raise on a board that the core emits: it prints once for each live
    cell, at the cell, the entry of the table for the cell's state. *)
Theorem draw_cell_strings b t :
  emitted b →
  ∃ out, draw b t (cell_strings t) = Some out ∧ NoDup out.*1 ∧
    (∀ p, p ∈ out.*1 ↔ p ∈ dom b) ∧
    ∀ p g, (p, g) ∈ out ↔
           ∃ s, b !! p = Some s ∧ cell_strings t !! Z.to_nat s = Some g.
Proof.
  intros Hb. apply draw_total. intros p s Hs.
  rewrite cell_strings_length. by eapply emitted_range.
Qed.

Lemma draw_cell_strings_witness :
  emitted (next_board blinker (die 3 3)) ∧
  ∃ out, draw (next_board blinker (die 3 3)) vt (cell_strings vt) = Some out ∧
    NoDup out.*1 ∧
    (∀ p, p ∈ out.*1 ↔ p ∈ dom (next_board blinker (die 3 3))) ∧
    ∀ p g, (p, g) ∈ out ↔
           ∃ s, next_board blinker (die 3 3) !! p = Some s ∧
                cell_strings vt !! Z.to_nat s = Some g.
Proof.
  assert (emitted (next_board blinker (die 3 3))) as Hb
    by exact (emitted_next (elements (points_to_recalc blinker)) blinker (die 3 3)).
  split; [exact Hb|]. exact (draw_cell_strings _ vt Hb).
Defined.

(** A state beyond the table raises; a negative one counts from its end. *)
Example draw_subscripts :
  draw {[ (0, 0) := 3 ]} vt (cell_strings vt) = None ∧
  draw {[ (0, 0) := -1 ]} vt (cell_strings vt) = Some [((0, 0), "b ")] ∧
  draw {[ (0, 0) := 1 ]} vt (cell_strings vt) = Some [((0, 0), "g ")].
Proof. by vm_compute. Qed.

(** ** The loop of main *)

Lemma random_board_total max_x max_y load_factor src :
  0 ≤ max_x → 0 ≤ max_y → load_factor ≠ 0 →
  ∃ b rest, random_board max_x max_y load_factor src = Returns b rest.
Proof.
  intros Hx Hy Hlf. unfold random_board.
  destruct (Z.eqb_spec load_factor 0); [done|].
  destruct (items_of_total (Z.to_nat (max_x * max_y / load_factor))
              max_x max_y src Hx Hy) as (items & rest & Hitems).
  exists (dict items), rest. unfold mbind, M_bind. by rewrite Hitems.
Qed.

Lemma random_board_within W H load_factor src b rest :
  random_board (W - 1) (H - 1) load_factor src = Returns b rest →
  within W H b ∧ ∀ p s, b !! p = Some s → s = 0.
Proof.
  intros (items & -> & _ & Hall)%random_board_Returns.
  rewrite Forall_forall in Hall. split.
  - intros p [s Hs]%elem_of_dom. apply dict_lookup_Some in Hs.
    destruct (Hall _ Hs) as [Hin _]. simpl in Hin. lia.
  - intros p s Hs. apply dict_lookup_Some in Hs.
    by destruct (Hall _ Hs) as [_ ?].
Qed.

Lemma is_bored_of_Returns d b src bored d' rest :
  is_bored_of d b src = Returns (bored, d') rest →
  ∃ reset, stepped (mkCall d (len b) bored reset d').
Proof.
  unfold is_bored_of.
  intros ([[bored0 reset] d0] & s & Hr & [= <- <- _])%bind_Returns.
  exists reset. by apply is_bored_of_traced_Returns in Hr.
Qed.

Lemma is_bored_of_total d b src :
  ∃ bored d' rest, is_bored_of d b src = Returns (bored, d') rest.
Proof.
  destruct (is_bored_of_traced_total d b src) as ([[bored reset] d'] & rest & Hr).
  exists bored, d', rest. unfold is_bored_of, mbind, M_bind. by rewrite Hr.
Qed.

Lemma within_next_board_die W H b : within W H (next_board b (die W H)).
Proof.
  intros p [s Hs]%elem_of_dom.
  rewrite (lookup_next_board _ (die_fixes W H)) in Hs. unfold verdict in Hs.
  destruct (die W H p) eqn:Hd; [|done]. by apply die_Some in Hd as [_ ?].
Qed.

Lemma lookup_update b other p :
  update b other !! p = from_option Some (b !! p) (other !! p).
Proof.
  unfold update. rewrite lookup_union.
  destruct (other !! p), (b !! p); done.
Qed.

(** What a turn of the loop that returns has done. *)
Lemma frame_Returns t cells b d src f rest :
  frame t cells b d src = Returns (Some f) rest →
  let W := term.width t in
  let H := term.height t in
  let gen := next_board b (die W H) in
  draw gen t cells = Some (shown f) ∧
  erased f = clear (board_after f) t H ∧
  ∃ bored src1,
    is_bored_of d gen src = Returns (bored, detector_after f) src1 ∧
    if bored
    then ∃ nudge,
           random_board (W - 1) (H - 1) NUDGING_LOAD_FACTOR src1 = Returns nudge rest ∧
           board_after f = update gen nudge
    else board_after f = gen.
Proof.
  unfold frame. cbv zeta.
  destruct (draw _ t cells) as [out|]; [|by intros [= ]].
  intros ([bored d'] & src1 & Hbored & Hrest)%bind_Returns.
  apply bind_Returns in Hrest as (b' & src2 & Hb' & [= <- <-]).
  simpl. split; [done|]. split; [done|]. exists bored, src1. split; [done|].
  simpl in Hb'. destruct bored.
  - apply bind_Returns in Hb' as (nudge & src3 & Hnudge & [= <- <-]).
    by exists nudge.
  - by injection Hb' as <- _.
Qed.

Lemma frame_total t cells b d src :
  1 ≤ term.width t → 1 ≤ term.height t →
  is_Some (draw (next_board b (die (term.width t) (term.height t))) t cells) →
  ∃ f rest, frame t cells b d src = Returns (Some f) rest.
Proof.
  intros HW HH [out Hout]. unfold frame. cbv zeta. rewrite Hout.
  destruct (is_bored_of_total d (next_board b (die (term.width t) (term.height t))) src)
    as (bored & d' & src1 & Hbored).
  unfold mbind, M_bind at 1. rewrite Hbored. simpl. destruct bored.
  - destruct (random_board_total (term.width t - 1) (term.height t - 1)
                NUDGING_LOAD_FACTOR src1) as (nudge & src2 & Hnudge); [lia|lia|done|].
    eexists _, _. unfold mbind, M_bind. rewrite Hnudge. done.
  - by eexists _, _.
Qed.

Lemma frame_returns t b d src :
  1 ≤ term.width t → 1 ≤ term.height t →
  ∃ f rest, frame t (cell_strings t) b d src = Returns (Some f) rest.
Proof.
  intros HW HH. apply frame_total; [done..|].
  destruct (draw_total (next_board b (die (term.width t) (term.height t))) t
              (cell_strings t)) as (out & Hout & _); [|by exists out].
  intros p s Hs. rewrite cell_strings_length.
  eapply emitted_range; [apply emitted_next | done].
Qed.

Lemma frame_board t cells b d src f rest :
  frame t cells b d src = Returns (Some f) rest →
  within (term.width t) (term.height t) (board_after f) ∧
  ∀ p s, board_after f !! p = Some s → s = 0 ∨ s = 1 ∨ s = 2.
Proof.
  intros (_ & _ & bored & src1 & _ & Hb')%frame_Returns.
  set (W := term.width t) in *. set (H := term.height t) in *.
  pose proof (within_next_board_die W H b) as Hwithin.
  assert (∀ p s, next_board b (die W H) !! p = Some s → s = 0 ∨ s = 1 ∨ s = 2)
    as Hrange.
  { intros p s Hs.
    pose proof (emitted_range _ _ _ (emitted_next _ b (die W H)) Hs). lia. }
  destruct bored; [|by rewrite Hb'].
  destruct Hb' as (nudge & Hnudge & ->).
  apply random_board_within in Hnudge as [Hn Hzero]. split.
  - intros p. unfold update. rewrite dom_union_L, elem_of_union.
    intros [?|?]; [by apply Hn | by apply Hwithin].
  - intros p s. rewrite lookup_update.
    destruct (nudge !! p) as [s'|] eqn:Hp; simpl.
    + intros [= <-]. left. by eapply Hzero.
    + apply Hrange.
Qed.

(** X18.  On a terminal of at least one column and one row, a turn of the
    loop of [main], from any board and any detector, raises nothing; the
    board it leaves is on the screen with states 0, 1 or 2, what it draws
    is the clipped next generation, and each cell drawn is on a row that
    [clear] erases. *)
Theorem frame_keeps_the_screen t b d src :
  let W := term.width t in
  let H := term.height t in
  1 ≤ W → 1 ≤ H →
  ∃ f, returned (frame t (cell_strings t) b d src) = Some (Some f) ∧
    within W H (board_after f) ∧
    (∀ p s, board_after f !! p = Some s → s = 0 ∨ s = 1 ∨ s = 2) ∧
    (∀ p, p ∈ (shown f).*1 ↔ p ∈ dom (next_board b (die W H))) ∧
    (∀ p g, (p, g) ∈ shown f →
            term.move t p.2 0 +:+ term.clear_eol t ∈ erased f).
Proof.
  intros W H HW HH.
  destruct (frame_returns t b d src HW HH) as (f & rest & Hf).
  exists f. split; [by rewrite Hf|].
  destruct (frame_board _ _ _ _ _ _ _ Hf) as [Hwithin Hrange].
  split; [done|]. split; [done|].
  apply frame_Returns in Hf as (Hshown & Herased & _). fold W H in Hshown, Herased.
  destruct (draw_total (next_board b (die W H)) t (cell_strings t))
    as (out & Hout & _ & Hkeys & _).
  { intros p s Hs. rewrite cell_strings_length.
    eapply emitted_range; [apply emitted_next | done]. }
  assert (shown f = out) as -> by congruence.
  split; [done|].
  intros p g Hpg. rewrite Herased. unfold clear.
  apply list_elem_of_fmap. exists p.2. split; [done|].
  apply elem_of_seqZ.
  assert (p ∈ out.*1) as Hp.
  { apply list_elem_of_fmap. by exists (p, g). }
  apply Hkeys, (within_next_board_die W H b) in Hp. lia.
Qed.

Lemma frame_keeps_the_screen_witness :
  (1 ≤ term.width vt ∧ 1 ≤ term.height vt) ∧
  ∃ f, returned (frame vt (cell_strings vt) blinker BoredomDetector_init
                   (constant_source 0)) = Some (Some f) ∧
    within (term.width vt) (term.height vt) (board_after f) ∧
    (∀ p s, board_after f !! p = Some s → s = 0 ∨ s = 1 ∨ s = 2) ∧
    (∀ p, p ∈ (shown f).*1 ↔
          p ∈ dom (next_board blinker (die (term.width vt) (term.height vt)))) ∧
    (∀ p g, (p, g) ∈ shown f →
            term.move vt p.2 0 +:+ term.clear_eol vt ∈ erased f).
Proof.
  assert (1 ≤ term.width vt) as HW by (vm_compute; discriminate).
  assert (1 ≤ term.height vt) as HH by (vm_compute; discriminate).
  split; [by split|].
  exact (frame_keeps_the_screen vt blinker BoredomDetector_init (constant_source 0) HW HH).
Defined.

(** X19.  In a turn of the loop the board left is the clipped next
    generation when the detector returns false; when it returns true, no
    cell of that generation is removed, a cell whose state differs or that
    is new has state 0, and at most
    [floor((width - 1) * (height - 1) / 27)] cells are added. *)
Theorem frame_nudges_by_merging t cells b d src f :
  let gen := next_board b (die (term.width t) (term.height t)) in
  returned (frame t cells b d src) = Some (Some f) →
  ∃ bored, returned (is_bored_of d gen src) = Some (bored, detector_after f) ∧
    (bored = false → board_after f = gen) ∧
    dom gen ⊆ dom (board_after f) ∧
    (∀ p s, board_after f !! p = Some s →
            gen !! p = Some s ∨ (bored = true ∧ s = 0)) ∧
    len (board_after f) ≤
      len gen + Z.max 0 ((term.width t - 1) * (term.height t - 1) / NUDGING_LOAD_FACTOR).
Proof.
  intros gen (rest & Hf)%returned_Some.
  apply frame_Returns in Hf as (_ & _ & bored & src1 & Hbored & Hb').
  fold gen in Hbored, Hb'. exists bored. split; [by rewrite Hbored|].
  destruct bored.
  - destruct Hb' as (nudge & Hnudge & ->).
    pose proof Hnudge as [_ Hn]%random_board_within.
    split; [done|]. split; [|split].
    + unfold update. rewrite dom_union_L. apply union_subseteq_r.
    + intros p s. rewrite lookup_update.
      destruct (nudge !! p) as [s'|] eqn:Hp; simpl.
      * intros [= <-]. right. split; [done|]. by eapply Hn.
      * by left.
    + apply random_board_Returns in Hnudge as (items & -> & Hlen & _).
      pose proof (dict_size items) as Hsize. unfold len, update.
      rewrite <- !size_dom, dom_union_L, size_union_alt.
      assert (size (dom gen ∖ dom (dict items)) ≤ size (dom gen))%nat
        by (apply subseteq_size; by intros x [? _]%elem_of_difference).
      rewrite !size_dom in *. lia.
  - rewrite Hb'. split; [done|]. split; [done|]. split; [by left | lia].
Qed.

Lemma frame_nudges_by_merging_witness :
  ∃ f, returned (frame vt (cell_strings vt) blinker (mkDetector 3 3 14)
                   (constant_source 5)) = Some (Some f) ∧
    ∃ bored,
      returned (is_bored_of (mkDetector 3 3 14)
                  (next_board blinker (die (term.width vt) (term.height vt)))
                  (constant_source 5))
        = Some (bored, detector_after f) ∧
      (bored = false →
       board_after f = next_board blinker (die (term.width vt) (term.height vt))) ∧
      dom (next_board blinker (die (term.width vt) (term.height vt)))
        ⊆ dom (board_after f) ∧
      (∀ p s, board_after f !! p = Some s →
              next_board blinker (die (term.width vt) (term.height vt)) !! p = Some s
              ∨ (bored = true ∧ s = 0)) ∧
      len (board_after f) ≤
        len (next_board blinker (die (term.width vt) (term.height vt)))
        + Z.max 0 ((term.width vt - 1) * (term.height vt - 1) / NUDGING_LOAD_FACTOR).
Proof.
  assert (∃ f, returned (frame vt (cell_strings vt) blinker (mkDetector 3 3 14)
                           (constant_source 5)) = Some (Some f)) as [f Hf].
  { eexists. vm_compute. reflexivity. }
  exists f. split; [exact Hf|].
  exact (frame_nudges_by_merging vt (cell_strings vt) blinker (mkDetector 3 3 14)
           (constant_source 5) f Hf).
Defined.

(** A turn of the loop that nudges: the detector had counted 14 repetitions
    of the population 3. *)
Example frame_nudges :
  (λ o : option turn, (λ f : turn, size (board_after f)) <$> o)
    <$> returned (frame vt (cell_strings vt) blinker (mkDetector 3 3 14)
                    (constant_source 5))
  = Some (Some 4%nat).
Proof. by vm_compute. Qed.

Lemma frames_Returns_S n t cells b d src turns rest :
  frames (S n) t cells b d src = Returns (Some turns) rest →
  ∃ f src1 turns',
    frame t cells b d src = Returns (Some f) src1 ∧
    frames n t cells (board_after f) (detector_after f) src1
      = Returns (Some turns') rest ∧
    turns = f :: turns'.
Proof.
  simpl. intros ([f|] & src1 & Hf & Hrest)%bind_Returns; [|done].
  apply bind_Returns in Hrest as ([turns'|] & src2 & Hturns & [= <- <-]).
  by exists f, src1, turns'.
Qed.

Lemma frames_total t n b d src :
  let W := term.width t in
  let H := term.height t in
  1 ≤ W → 1 ≤ H →
  ∃ turns rest,
    frames n t (cell_strings t) b d src = Returns (Some turns) rest ∧
    length turns = n ∧
    Forall (λ f, within W H (board_after f) ∧
                 ∀ p s, board_after f !! p = Some s → s = 0 ∨ s = 1 ∨ s = 2) turns.
Proof.
  intros W H HW HH. revert b d src.
  induction n as [|n IH]; intros b d src.
  - by exists [], src.
  - destruct (frame_returns t b d src HW HH) as (f & src1 & Hf).
    destruct (frame_board _ _ _ _ _ _ _ Hf) as [Hwithin Hrange].
    destruct (IH (board_after f) (detector_after f) src1)
      as (turns & rest & Hturns & Hlen & Hall).
    exists (f :: turns), rest. split; [|split].
    + simpl. unfold mbind, M_bind at 1. rewrite Hf.
      unfold mbind, M_bind. by rewrite Hturns.
    + simpl. by rewrite Hlen.
    + by constructor.
Qed.

Lemma generations_S_r n wrap b :
  generations (S n) wrap b = generations n wrap (next_board b wrap).
Proof. unfold generations. apply Nat.iter_succ_r. Qed.

(** While the detector cannot have counted 15 repetitions, the turns of the
    loop are plain generations. *)
Lemma frames_quiet t cells n b d src turns rest :
  frames n t cells b d src = Returns (Some turns) rest →
  (d = BoredomDetector_init ∧ n ≤ 15)%nat ∨
    (0 ≤ times d ∧ times d + Z.of_nat n ≤ REPETITIONS) →
  ∀ i f, turns !! i = Some f →
         board_after f = generations (S i) (die (term.width t) (term.height t)) b.
Proof.
  revert b d src turns. induction n as [|n IH]; intros b d src turns.
  - intros [= <- _] _ i f. by rewrite lookup_nil.
  - intros (f0 & src1 & turns' & Hf0 & Hturns' & ->)%frames_Returns_S Hd.
    apply frame_Returns in Hf0 as (_ & _ & bored & src2 & Hbored & Hb').
    apply is_bored_of_Returns in Hbored as (reset & Hb & Hr & Hafter).
    simpl in Hb, Hr, Hafter. unfold REPETITIONS, PATTERN_LENGTH in *.
    assert (bored = false ∧ 0 ≤ times (detector_after f0) ∧
            times (detector_after f0) + Z.of_nat n ≤ 14) as (-> & Ht0 & Ht).
    { destruct Hd as [[-> Hn]|[Ht0 Ht]].
      - simpl in Hb, Hr, Hafter. rewrite Hr in Hafter. simpl in Hafter.
        destruct (_ =? _); (split; [done | lia]).
      - destruct (Z.eqb_spec (len (next_board b (die (term.width t) (term.height t))))
                    (num d)); (split; [lia|]); destruct reset; lia. }
    intros [|i] f Hf; simpl in Hf.
    + by injection Hf as <-.
    + rewrite generations_S_r, <- Hb'.
      eapply IH; [exact Hturns' | | exact Hf]. right. lia.
Qed.

(** X20.  On a terminal of at least one column and one row, [main]
    interrupted after any number [n] of turns has raised nothing: its
    first board is on the screen with at most
    [floor((width - 1) * (height - 1) / 9)] cells, and the board left by
    each of the [n] turns is on the screen with states 0, 1 or 2. *)
Theorem main_runs t n src :
  let W := term.width t in
  let H := term.height t in
  1 ≤ W → 1 ≤ H →
  ∃ b0 turns,
    returned (main n t src) = Some (Some (b0, turns)) ∧ length turns = n ∧
    within W H b0 ∧ len b0 ≤ (W - 1) * (H - 1) / LOAD_FACTOR ∧
    Forall (λ f, within W H (board_after f) ∧
                 ∀ p s, board_after f !! p = Some s → s = 0 ∨ s = 1 ∨ s = 2) turns.
Proof.
  intros W H HW HH.
  destruct (random_board_total (W - 1) (H - 1) LOAD_FACTOR src)
    as (b0 & src1 & Hb0); [lia|lia|done|].
  destruct (frames_total t n b0 BoredomDetector_init src1 HW HH)
    as (turns & rest & Hturns & Hlen & Hall).
  exists b0, turns. split; [|split; [done|split; [|split; [|done]]]].
  - unfold main. fold W H. unfold mbind, M_bind at 1. rewrite Hb0.
    unfold mbind, M_bind. by rewrite Hturns.
  - by apply random_board_within in Hb0 as [? _].
  - apply random_board_Returns in Hb0 as (items & -> & Hlen' & _).
    unfold len. pose proof (dict_size items).
    assert (0 ≤ (W - 1) * (H - 1) / LOAD_FACTOR) by (apply Z.div_pos; [nia|done]).
    lia.
Qed.

Lemma main_runs_witness :
  (1 ≤ term.width vt ∧ 1 ≤ term.height vt) ∧
  ∃ b0 turns,
    returned (main 20 vt (λ i, Z.of_nat i * 7 + 3)) = Some (Some (b0, turns)) ∧
    length turns = 20%nat ∧
    within (term.width vt) (term.height vt) b0 ∧
    len b0 ≤ (term.width vt - 1) * (term.height vt - 1) / LOAD_FACTOR ∧
    Forall (λ f, within (term.width vt) (term.height vt) (board_after f) ∧
                 ∀ p s, board_after f !! p = Some s → s = 0 ∨ s = 1 ∨ s = 2) turns.
Proof.
  assert (1 ≤ term.width vt) as HW by (vm_compute; discriminate).
  assert (1 ≤ term.height vt) as HH by (vm_compute; discriminate).
  split; [by split|].
  exact (main_runs vt 20 (λ i, Z.of_nat i * 7 + 3) HW HH).
Defined.

(** X21.  For the first 15 turns of [main] the detector cannot return
    true: the board left by turn [i + 1] is the first board advanced
    [i + 1] generations under [die]. *)
Theorem main_first_turns_are_generations t n src b0 turns :
  (n ≤ 15)%nat →
  returned (main n t src) = Some (Some (b0, turns)) →
  ∀ i f, turns !! i = Some f →
         board_after f = generations (S i) (die (term.width t) (term.height t)) b0.
Proof.
  intros Hn (rest & Hmain)%returned_Some. unfold main in Hmain.
  apply bind_Returns in Hmain as (b & src1 & Hb & Hmain).
  apply bind_Returns in Hmain as ([turns0|] & src2 & Hturns & [= <- <- _]).
  eapply frames_quiet; [exact Hturns|]. by left.
Qed.

Lemma main_first_turns_are_generations_witness :
  ∃ b0 turns,
    ((3 ≤ 15)%nat ∧
     returned (main 3 small (λ i, Z.of_nat i * 7 + 3)) = Some (Some (b0, turns))) ∧
    ∀ i f, turns !! i = Some f →
           board_after f
           = generations (S i) (die (term.width small) (term.height small)) b0.
Proof.
  assert (∃ b0 turns,
    returned (main 3 small (λ i, Z.of_nat i * 7 + 3)) = Some (Some (b0, turns)))
    as (b0 & turns & Hmain).
  { eexists _, _. vm_compute. reflexivity. }
  assert (3 ≤ 15)%nat as Hn by lia.
  exists b0, turns. split; [by split|].
  exact (main_first_turns_are_generations small 3 _ b0 turns Hn Hmain).
Defined.
